(** * ProtoNN graph (tf/edgeml/graph/protoNN.py): a shallow embedding

    The class [ProtoNN] builds the prototype classifier
    [y = sum_p Z[:,p] * exp(-gamma^2 * ||B[:,p] - X W||^2)].
    Tensors are modelled by their value: a shape together with an indexing
    function into the reals.  The values handed to the constructor are
    rounded to float32 as [tf.Variable] and [tf.constant] do; the arithmetic
    of the graph is that of the reals.  The object
    is a record that every method threads explicitly; a Python exception is
    the left injection of the method's result. *)

From Stdlib Require Import Reals Lra Lia List String Bool Arith ZArith.
Import ListNotations.

Open Scope R_scope.

(** ** Exceptions *)

Inductive exn : Type :=
| AssertionError (msg : string)
| InvalidArgumentError (op : string).

(** Line 50-51: the message of the six shape assertions. *)
Definition errmsg : string :=
  ("Dimensions mismatch! Should be W[d, d_cap]" ++ ", B[d_cap, m] and Z[L, m]")%string.

(** Line 144-145: the message of [getAccuracyOp]. *)
Definition accmsg : string :=
  ("Accuracy operator not defined in graph. Did you provide Y as an"
     ++ " argument to _call_?")%string.

Definition DimensionMismatch : exn := AssertionError errmsg.
Definition UninitializedModel : exn := AssertionError "Initialization failed!".
Definition AccuracyNotAvailable : exn := AssertionError accmsg.

(** [contains sub s]: [sub] occurs in [s]. *)
Definition contains (sub s : string) : bool :=
  match String.index 0 sub s with Some _ => true | None => false end.

(** ** Tensors *)

Module Tensor.

(** Rank-2 float tensor. *)
Record T2 : Type := mkT2 { shape2 : nat * nat; at2 : nat -> nat -> R }.

(** Rank-3 float tensor. *)
Record T3 : Type :=
  mkT3 { shape3 : nat * nat * nat; at3 : nat -> nat -> nat -> R }.

(** Rank-1 integer tensor (the result of [tf.argmax]). *)
Record I1 : Type := mkI1 { ilen : nat; iat : nat -> nat }.

(** Rank-1 boolean tensor (the result of [tf.equal]). *)
Record B1 : Type := mkB1 { blen : nat; bat : nat -> bool }.

Definition rows (t : T2) : nat := fst (shape2 t).
Definition cols (t : T2) : nat := snd (shape2 t).

(** A matrix given by its rows, and back. *)
Definition of_rows (r c : nat) (l : list (list R)) : T2 :=
  mkT2 (r, c) (fun i j => nth j (nth i l []) 0).

Definition to_rows (t : T2) : list (list R) :=
  map (fun i => map (fun j => at2 t i j) (seq 0 (cols t))) (seq 0 (rows t)).

Definition to_list (p : I1) : list nat := map (iat p) (seq 0 (ilen p)).

(** [sum_upto k f = f 0 + ... + f (k-1)]. *)
Fixpoint sum_upto (k : nat) (f : nat -> R) : R :=
  match k with
  | O => 0
  | S k' => sum_upto k' f + f k'
  end.

(** Broadcasting of one axis: equal sizes, or one of them is 1. *)
Definition bdim (a b : nat) : option nat :=
  if Nat.eqb a b then Some a
  else if Nat.eqb a 1 then Some b
  else if Nat.eqb b 1 then Some a
  else None.

(** Index into an operand whose axis has size [sz]. *)
Definition bidx (sz i : nat) : nat := if Nat.eqb sz 1 then O else i.

(** [tf.matmul(X, W)]. *)
Definition matmul (X W : T2) : exn + T2 :=
  if Nat.eqb (cols X) (rows W) then
    inr (mkT2 (rows X, cols W)
           (fun i k => sum_upto (cols X) (fun j => at2 X i j * at2 W j k)))
  else inl (InvalidArgumentError "MatMul").

(** [tf.reshape(t, [-1, t.shape[1], 1])]: the missing size cannot be
    inferred when the given sizes multiply to zero. *)
Definition reshape_m1_k_1 (t : T2) : exn + T3 :=
  if Nat.eqb (cols t) 0 then inl (InvalidArgumentError "Reshape")
  else inr (mkT3 (rows t, cols t, 1%nat) (fun i j _ => at2 t i j)).

(** [tf.reshape(t, [1, t.shape[0], -1])]. *)
Definition reshape_1_k_m1 (t : T2) : exn + T3 :=
  if Nat.eqb (rows t) 0 then inl (InvalidArgumentError "Reshape")
  else inr (mkT3 (1%nat, rows t, cols t) (fun _ j k => at2 t j k)).

(** [tf.reshape(t, [1] + t.shape)]. *)
Definition reshape_1_plus (t : T2) : T3 :=
  mkT3 (1%nat, rows t, cols t) (fun _ j k => at2 t j k).

(** An elementwise binary operation with broadcasting. *)
Definition broadcast3 (op : string) (f : R -> R -> R) (a b : T3)
  : exn + T3 :=
  let '(a0, a1, a2) := shape3 a in
  let '(b0, b1, b2) := shape3 b in
  match bdim a0 b0, bdim a1 b1, bdim a2 b2 with
  | Some s0, Some s1, Some s2 =>
      inr (mkT3 (s0, s1, s2)
             (fun i j k =>
                f (at3 a (bidx a0 i) (bidx a1 j) (bidx a2 k))
                  (at3 b (bidx b0 i) (bidx b1 j) (bidx b2 k))))
  | _, _, _ => inl (InvalidArgumentError op)
  end.

Definition sub3 : T3 -> T3 -> exn + T3 := broadcast3 "Sub" Rminus.
Definition multiply3 : T3 -> T3 -> exn + T3 := broadcast3 "Mul" Rmult.

Definition map3 (f : R -> R) (t : T3) : T3 :=
  mkT3 (shape3 t) (fun i j k => f (at3 t i j k)).

(** [tf.pow(t, 2)]. *)
Definition pow3 (t : T3) (e : nat) : T3 := map3 (fun x => x ^ e) t.

(** [c * t] for a scalar tensor [c]. *)
Definition scale3 (c : R) (t : T3) : T3 := map3 (fun x => c * x) t.

(** [tf.exp(t)]. *)
Definition exp3 (t : T3) : T3 := map3 exp t.

(** [tf.reduce_sum(t, 1, keepdims=True)]. *)
Definition reduce_sum_1_keep (t : T3) : T3 :=
  let '(s0, s1, s2) := shape3 t in
  mkT3 (s0, 1%nat, s2) (fun i _ k => sum_upto s1 (fun j => at3 t i j k)).

(** [tf.reduce_sum(t, 2)]. *)
Definition reduce_sum_2 (t : T3) : T2 :=
  let '(s0, s1, s2) := shape3 t in
  mkT2 (s0, s1) (fun i j => sum_upto s2 (fun k => at3 t i j k)).

(** First index of the largest of [f 0 .. f k], the best so far being
    [best]. *)
Fixpoint argmax_from (f : nat -> R) (best i k : nat) : nat :=
  match k with
  | O => best
  | S k' =>
      argmax_from f (if Rlt_dec (f best) (f i) then i else best) (S i) k'
  end.

Definition argmax_row (f : nat -> R) (k : nat) : nat :=
  argmax_from f O 1%nat (pred k).

(** [tf.argmax(t, 1)]: the reduction axis must not be empty. *)
Definition argmax1 (t : T2) : exn + I1 :=
  if Nat.eqb (cols t) 0 then inl (InvalidArgumentError "ArgMax")
  else inr (mkI1 (rows t) (fun i => argmax_row (at2 t i) (cols t))).

(** [tf.equal(p, q)] on integer vectors. *)
Definition equal1 (p q : I1) : exn + B1 :=
  match bdim (ilen p) (ilen q) with
  | Some n =>
      inr (mkB1 n (fun i => Nat.eqb (iat p (bidx (ilen p) i))
                              (iat q (bidx (ilen q) i))))
  | None => inl (InvalidArgumentError "Equal")
  end.

(** [tf.cast(b, tf.float32)] of one entry. *)
Definition cast (b : bool) : R := if b then 1 else 0.

(** [tf.reduce_mean(tf.cast(b, tf.float32))]. *)
Definition reduce_mean (b : B1) : R :=
  sum_upto (blen b) (fun i => cast (bat b i)) / INR (blen b).

End Tensor.

Import Tensor.

(** ** float32

    [tf.Variable(v, dtype=tf.float32)] and [tf.constant(gamma)] store the
    float32 nearest to each value they are given: 24 significant bits,
    least exponent -149, ties to even.  Values beyond the largest float32
    become infinite and have no counterpart here; [in_float32_range] says
    that a value is not of those. *)

(** Round to the nearest integer, ties to even. *)
Definition rne (r : R) : Z :=
  let f := Int_part r in
  let h := r - IZR f in
  if Rlt_dec h (1 / 2) then f
  else if Rlt_dec (1 / 2) h then (f + 1)%Z
  else if Z.even f then f else (f + 1)%Z.

(** The binary exponent of [x]: [2^e <= |x| < 2^(e+1)]. *)
Definition ilog2 (x : R) : Z := Int_part (ln (Rabs x) / ln 2).

(** The exponent of the unit in the last place of the float32 next to
    [x]. *)
Definition ulp_exp (x : R) : Z := Z.max (ilog2 x - 23) (- 149).

Definition float32 (x : R) : R :=
  IZR (rne (x * powerRZ 2 (- ulp_exp x))) * powerRZ 2 (ulp_exp x).

(** [x] is a float32 number. *)
Definition is_float32 (x : R) : Prop :=
  exists m c : Z,
    (Z.abs m < 2 ^ 24)%Z /\ (- 149 <= c <= 104)%Z /\
    x = IZR m * powerRZ 2 c.

(** [x] is no larger than the largest float32. *)
Definition in_float32_range (x : R) : Prop :=
  Rabs x <= IZR (2 ^ 24 - 1) * powerRZ 2 104.

(** The conversion of a tensor, entry by entry. *)
Definition to_float32 (t : T2) : T2 :=
  mkT2 (shape2 t) (fun i j => float32 (at2 t i j)).

(** Two tensors of the same shape and entries. *)
Definition same_tensor (a b : T2) : Prop :=
  shape2 a = shape2 b /\
  forall i j, (i < rows a)%nat -> (j < cols a)%nat -> at2 a i j = at2 b i j.

(** Every entry of a tensor satisfies [P]. *)
Definition entries (P : R -> Prop) (t : T2) : Prop :=
  forall i j, (i < rows t)%nat -> (j < cols t)%nat -> P (at2 t i j).

(** ** The object *)

(** The initial values drawn by [tf.random_normal_initializer] (for [W] and
    [Z]) and [tf.random_uniform_initializer] (for [B]). *)
Record Initializers : Type := mkInit {
  normalW : nat -> nat -> R;
  uniformB : nat -> nat -> R;
  normalZ : nat -> nat -> R
}.

(** An initializer called on a shape yields a tensor of that shape. *)
Definition initializer (sample : nat -> nat -> R) (shape : nat * nat) : T2 :=
  mkT2 shape sample.

(** The attributes of a [ProtoNN] instance.  [W], [B], [Z] and [gamma] hold
    what [__initWBZ] and [__initGamma] bind; the [None] placeholders of
    lines 37-38 are overwritten before they are read. *)
Record ProtoNN : Type := mkProtoNN {
  d : nat;
  d_cap : nat;
  m : nat;
  L : nat;
  inW : option T2;
  inB : option T2;
  inZ : option T2;
  inGamma : R;
  W : T2;
  B : T2;
  Z : T2;
  gamma : R;
  validInit : bool;
  l2sim : option T3;
  protoNNOut : option T2;
  predictions : option I1;
  accuracy : option R
}.

Definition set_validInit (b : bool) (s : ProtoNN) : ProtoNN :=
  mkProtoNN (d s) (d_cap s) (m s) (L s) (inW s) (inB s) (inZ s) (inGamma s)
    (W s) (B s) (Z s) (gamma s) b (l2sim s) (protoNNOut s) (predictions s)
    (accuracy s).

Definition set_l2sim (t : option T3) (s : ProtoNN) : ProtoNN :=
  mkProtoNN (d s) (d_cap s) (m s) (L s) (inW s) (inB s) (inZ s) (inGamma s)
    (W s) (B s) (Z s) (gamma s) (validInit s) t (protoNNOut s)
    (predictions s) (accuracy s).

Definition set_protoNNOut (y : option T2) (s : ProtoNN) : ProtoNN :=
  mkProtoNN (d s) (d_cap s) (m s) (L s) (inW s) (inB s) (inZ s) (inGamma s)
    (W s) (B s) (Z s) (gamma s) (validInit s) (l2sim s) y (predictions s)
    (accuracy s).

Definition set_predictions (p : option I1) (s : ProtoNN) : ProtoNN :=
  mkProtoNN (d s) (d_cap s) (m s) (L s) (inW s) (inB s) (inZ s) (inGamma s)
    (W s) (B s) (Z s) (gamma s) (validInit s) (l2sim s) (protoNNOut s) p
    (accuracy s).

Definition set_accuracy (a : option R) (s : ProtoNN) : ProtoNN :=
  mkProtoNN (d s) (d_cap s) (m s) (L s) (inW s) (inB s) (inZ s) (inGamma s)
    (W s) (B s) (Z s) (gamma s) (validInit s) (l2sim s) (protoNNOut s)
    (predictions s) a.

(** ** Methods: a state and exception monad over the instance *)

Definition Method (A : Type) : Type := ProtoNN -> ProtoNN * (exn + A).

Definition ret {A} (a : A) : Method A := fun s => (s, inr a).

Definition raise {A} (e : exn) : Method A := fun s => (s, inl e).

Definition bind {A C} (x : Method A) (f : A -> Method C) : Method C :=
  fun s =>
    match x s with
    | (s', inr a) => f a s'
    | (s', inl e) => (s', inl e)
    end.

Definition self : Method ProtoNN := fun s => (s, inr s).

Definition assign (f : ProtoNN -> ProtoNN) : Method unit :=
  fun s => (f s, inr tt).

(** A tensor operation: it raises or returns, and leaves the object alone. *)
Definition tf {A} (r : exn + A) : Method A := fun s => (s, r).

(** [assert c, msg]. *)
Definition assert (c : bool) (msg : string) : Method unit :=
  if c then ret tt else raise (AssertionError msg).

Declare Scope method_scope.
Delimit Scope method_scope with method.
Notation "x <- c1 ;; c2" := (bind c1 (fun x => c2))
  (at level 61, c1 at next level, right associativity) : method_scope.
Notation "c1 ;; c2" := (bind c1 (fun _ => c2))
  (at level 61, right associativity) : method_scope.
Open Scope method_scope.

(** Lines 88-93. *)
Definition getHyperParams : Method (nat * nat * nat * nat * R) :=
  s <- self ;; ret (d s, d_cap s, m s, L s, gamma s).

(** Lines 95-96. *)
Definition getModelMatrices : Method (T2 * T2 * T2 * R) :=
  s <- self ;; ret (W s, B s, Z s, gamma s).

(** Lines 48-59. *)
Definition validateInit : Method unit :=
  assign (set_validInit false) ;;
  hp <- getHyperParams ;;
  let '(d, d_cap, m, L, _) := hp in
  s <- self ;;
  assert (Nat.eqb (fst (shape2 (W s))) d) errmsg ;;
  assert (Nat.eqb (snd (shape2 (W s))) d_cap) errmsg ;;
  assert (Nat.eqb (fst (shape2 (B s))) d_cap) errmsg ;;
  assert (Nat.eqb (snd (shape2 (B s))) m) errmsg ;;
  assert (Nat.eqb (fst (shape2 (Z s))) L) errmsg ;;
  assert (Nat.eqb (snd (shape2 (Z s))) m) errmsg ;;
  assign (set_validInit true).

(** Lines 61-81: a supplied matrix, or for a missing one a matrix drawn at
    the declared shape, is stored as a float32 variable. *)
Definition initWBZ (rnd : Initializers) (d d_cap m L : nat)
    (inW inB inZ : option T2) : T2 * T2 * T2 :=
  let W := match inW with
           | Some W => W
           | None => initializer (normalW rnd) (d, d_cap)
           end in
  let W := to_float32 W in
  let B := match inB with
           | Some B => B
           | None => initializer (uniformB rnd) (d_cap, m)
           end in
  let B := to_float32 B in
  let Z := match inZ with
           | Some Z => Z
           | None => initializer (normalZ rnd) (L, m)
           end in
  let Z := to_float32 Z in
  (W, B, Z).

(** Lines 83-86: [tf.constant] of a Python float is a float32 constant. *)
Definition initGamma (inGamma : R) : R := float32 inGamma.

(** Lines 9-46: the constructor; an exception leaves no instance. *)
Definition init (rnd : Initializers) (inputDimension projectionDimension
    numPrototypes numOutputLabels : nat) (gamma : R) (W B Z : option T2)
    : exn + ProtoNN :=
  let '(W', B', Z') :=
    initWBZ rnd inputDimension projectionDimension numPrototypes
      numOutputLabels W B Z in
  let s0 :=
    mkProtoNN inputDimension projectionDimension numPrototypes
      numOutputLabels W B Z gamma W' B' Z' (initGamma gamma) false
      None None None None in
  match (validateInit ;;
         assign (set_protoNNOut None) ;;
         assign (set_predictions None) ;;
         assign (set_accuracy None)) s0 with
  | (s, inr _) => inr s
  | (_, inl e) => inl e
  end.

(** Lines 98-138. *)
Definition call (X : T2) (Y : option T2) : Method T2 :=
  s <- self ;;
  assert (validInit s) "Initialization failed!" ;;
  match protoNNOut s with
  | Some out => ret out
  | None =>
      let '(W, B, Z, gamma) := (W s, B s, Z s, gamma s) in
      WX <- tf (matmul X W) ;;
      WX <- tf (reshape_m1_k_1 WX) ;;
      B <- tf (reshape_1_k_m1 B) ;;
      l2sim <- tf (sub3 B WX) ;;
      let l2sim := pow3 l2sim 2 in
      let l2sim := reduce_sum_1_keep l2sim in
      assign (set_l2sim (Some l2sim)) ;;
      let gammal2sim := scale3 (-1 * gamma * gamma) l2sim in
      let M := exp3 gammal2sim in
      let Z := reshape_1_plus Z in
      y <- tf (multiply3 Z M) ;;
      let y := reduce_sum_2 y in
      assign (set_protoNNOut (Some y)) ;;
      p <- tf (argmax1 y) ;;
      assign (set_predictions (Some p)) ;;
      match Y with
      | Some Y =>
          target <- tf (argmax1 Y) ;;
          correctPrediction <- tf (equal1 p target) ;;
          let acc := reduce_mean correctPrediction in
          assign (set_accuracy (Some acc))
      | None => ret tt
      end ;;
      ret y
  end.

(** Lines 140-141. *)
Definition getPredictionsOp : Method (option I1) :=
  s <- self ;; ret (predictions s).

(** Lines 143-147. *)
Definition getAccuracyOp : Method R :=
  s <- self ;;
  match accuracy s with
  | Some acc => ret acc
  | None => raise AccuracyNotAvailable
  end.

(** A sequence of [__call__]s on one instance; the exceptions are dropped
    (the caller catches them), the instance is kept. *)
Fixpoint calls (cs : list (T2 * option T2)) (s : ProtoNN) : ProtoNN :=
  match cs with
  | [] => s
  | (X, Y) :: cs' => calls cs' (fst (call X Y s))
  end.

(** ** The numeric example of the specification *)

Module Example1.
Definition rnd : Initializers :=
  mkInit (fun _ _ => 0) (fun _ _ => 0) (fun _ _ => 0).
Definition W0 : T2 := of_rows 2 2 [[1; 0]; [0; 1]].
Definition B0 : T2 := of_rows 2 1 [[0]; [0]].
Definition Z0 : T2 := of_rows 2 1 [[1]; [0]].
Definition X0 : T2 := of_rows 1 2 [[0; 0]].
Definition X1 : T2 := of_rows 2 2 [[0; 0]; [1; 1]].
Definition Y0 : T2 := of_rows 1 2 [[1; 0]].
Definition Y1 : T2 := of_rows 1 2 [[0; 1]].
Definition W3 : T2 := of_rows 3 2 [[1; 0]; [0; 1]; [0; 0]].

(** The instance of the example, and the instance after a first call
    without labels. *)
Definition s0 : ProtoNN :=
  mkProtoNN 2 2 1 2 (Some W0) (Some B0) (Some Z0) 1
    (to_float32 W0) (to_float32 B0) (to_float32 Z0) (float32 1) true
    None None None None.
Definition s1 : ProtoNN := fst (call X0 None s0).
End Example1.

(** The kernel of lines 124-125 on its own. *)
Definition kernel (gamma : R) (l2sim : T3) : T3 :=
  exp3 (scale3 (-1 * gamma * gamma) l2sim).

(** A supplied matrix has the declared shape (a missing one is drawn at
    it). *)
Definition shape_ok (t : option T2) (sh : nat * nat) : Prop :=
  match t with
  | Some t => shape2 t = sh
  | None => True
  end.

(** A supplied matrix does not have the declared shape. *)
Definition shape_bad (t : option T2) (sh : nat * nat) : Prop :=
  match t with
  | Some t => shape2 t <> sh
  | None => False
  end.

(** The same instance built with the opposite [gamma]. *)
Definition mirror (s : ProtoNN) : ProtoNN :=
  mkProtoNN (d s) (d_cap s) (m s) (L s) (inW s) (inB s) (inZ s)
    (- inGamma s) (W s) (B s) (Z s) (- gamma s) (validInit s) (l2sim s)
    (protoNNOut s) (predictions s) (accuracy s).

(** The six shape tests of [__validateInit]. *)
Definition six_checks (s : ProtoNN) : bool :=
  Nat.eqb (fst (shape2 (W s))) (d s) && Nat.eqb (snd (shape2 (W s))) (d_cap s)
  && Nat.eqb (fst (shape2 (B s))) (d_cap s) && Nat.eqb (snd (shape2 (B s))) (m s)
  && Nat.eqb (fst (shape2 (Z s))) (L s) && Nat.eqb (snd (shape2 (Z s))) (m s).

(** The instance a successful construction leaves. *)
Definition built (rnd : Initializers) (d d_cap m L : nat) (g : R)
    (W B Z : option T2) : ProtoNN :=
  let '(W', B', Z') := initWBZ rnd d d_cap m L W B Z in
  mkProtoNN d d_cap m L W B Z g W' B' Z' (float32 g) true
    None None None None.

(** The first half of [__call__] (lines 114-122) without the object: the
    squared distances of the projected rows to the prototypes. *)
Definition l2sim_of (W B X : T2) : exn + T3 :=
  match matmul X W with
  | inl e => inl e
  | inr WX =>
      match reshape_m1_k_1 WX with
      | inl e => inl e
      | inr WX3 =>
          match reshape_1_k_m1 B with
          | inl e => inl e
          | inr B3 =>
              match sub3 B3 WX3 with
              | inl e => inl e
              | inr diff => inr (reduce_sum_1_keep (pow3 diff 2))
              end
          end
      end
  end.

(** The second half (lines 124-129): the kernel-weighted sum of [Z]. *)
Definition scores_of (Z : T2) (gamma : R) (l2sim : T3) : exn + T2 :=
  match multiply3 (reshape_1_plus Z) (kernel gamma l2sim) with
  | inl e => inl e
  | inr y => inr (reduce_sum_2 y)
  end.

(** The instance after the lines 123, 130 and 131 of a computing call. *)
Definition computed (l2 : T3) (y : T2) (p : I1) (s : ProtoNN) : ProtoNN :=
  set_predictions (Some p) (set_protoNNOut (Some y) (set_l2sim (Some l2) s)).

(** No call of the sequence passes a [Y]. *)
Definition no_Y (cs : list (T2 * option T2)) : Prop :=
  Forall (fun c => snd c = None) cs.

(** [getAccuracyOp] raises on the instance. *)
Definition accuracy_raises (s : ProtoNN) : Prop :=
  getAccuracyOp s = (s, inl AccuracyNotAvailable).


(** ** The classifier in closed form

    What lines 114-129 compute, written entry by entry: the projection
    [X W], the squared distance of a projected row to a prototype, the
    kernel weight and the score. *)

Definition closed_proj (d : nat) (W X : T2) (i k : nat) : R :=
  sum_upto d (fun j => at2 X i j * at2 W j k).

Definition closed_sqdist (d d_cap : nat) (W B X : T2) (i p : nat) : R :=
  sum_upto d_cap (fun k => (at2 B k p - closed_proj d W X i k) ^ 2).

Definition closed_weight (d d_cap : nat) (W B : T2) (g : R) (X : T2)
    (i p : nat) : R :=
  exp (- (g ^ 2) * closed_sqdist d d_cap W B X i p).

Definition closed_score (d d_cap m : nat) (W B Z : T2) (g : R) (X : T2)
    (i l : nat) : R :=
  sum_upto m (fun p => at2 Z l p * closed_weight d d_cap W B g X i p).

(** Further inputs for the instance of the numeric example. *)
Module Example2.
(** An input of the wrong width. *)
Definition Xw : T2 := of_rows 1 3 [[0; 0; 0]].
(** Labels for three rows. *)
Definition Y3 : T2 := of_rows 3 2 [[1; 0]; [0; 1]; [1; 0]].
(** Labels with three columns. *)
Definition Yc : T2 := of_rows 2 3 [[0; 0; 1]; [1; 0; 0]].
(** Labels of one row. *)
Definition Yr : T2 := of_rows 1 2 [[1; 0]].
End Example2.

(** * Proofs *)

(** Evaluation of the methods on concrete instances; the real-number
    operations are left alone. *)
Ltac run :=
  lazy -[Rplus Rmult Rminus Ropp Rinv Rdiv exp pow Rlt_dec INR IZR float32].

(** Unfolding of the monad. *)
Ltac unmonad :=
  unfold bind, self, assert, tf, assign, ret, raise in *; simpl in *.

(** Case analysis on every test and tensor operation of a method body. *)
Ltac step_cases :=
  repeat match goal with
    | |- context [match ?x with _ => _ end] =>
        lazymatch x with
        | context [match _ with _ => _ end] => fail
        | _ => destruct x eqn:?; simpl
        end
    end.

(** Rewriting of the exponent of a concrete kernel weight to zero. *)
Ltac exp_zero :=
  repeat match goal with
    | |- context [exp ?a] =>
        lazymatch a with
        | 0 => fail
        | _ => replace a with 0 by ring
        end
    | H : context [exp ?a] |- _ =>
        lazymatch a with
        | 0 => fail
        | _ => replace a with 0 in H by ring
        end
    end;
  rewrite ?exp_0 in *.

(** ** The float32 conversion *)

Lemma Int_part_unique r z : IZR z <= r < IZR z + 1 -> Int_part r = z.
Proof. intros [H1 H2]. symmetry. apply Int_part_spec. lra. Qed.

Lemma Int_part_bounds r : IZR (Int_part r) <= r < IZR (Int_part r) + 1.
Proof. destruct (base_Int_part r). lra. Qed.

Lemma Int_part_IZR z : Int_part (IZR z) = z.
Proof. apply Int_part_unique. lra. Qed.

Lemma rne_IZR z : rne (IZR z) = z.
Proof.
  unfold rne. rewrite Int_part_IZR.
  destruct (Rlt_dec (IZR z - IZR z) (1 / 2)); [reflexivity | exfalso; lra].
Qed.

Lemma rne_opp r : rne (- r) = (- rne r)%Z.
Proof.
  unfold rne. pose proof (Int_part_bounds r) as [Hlo Hhi].
  set (f := Int_part r) in *.
  destruct (Req_dec r (IZR f)) as [E | NE].
  - assert (Ef : Int_part (- r) = (- f)%Z).
    { apply Int_part_unique. rewrite opp_IZR. lra. }
    rewrite Ef, opp_IZR.
    destruct (Rlt_dec (- r - - IZR f) (1 / 2)); [|exfalso; lra].
    destruct (Rlt_dec (r - IZR f) (1 / 2)); [reflexivity | exfalso; lra].
  - assert (Ef : Int_part (- r) = (- f - 1)%Z).
    { apply Int_part_unique. rewrite minus_IZR, opp_IZR. lra. }
    rewrite Ef, minus_IZR, opp_IZR.
    destruct (Rlt_dec (r - IZR f) (1 / 2)) as [H1 | H1].
    + destruct (Rlt_dec (- r - (- IZR f - 1)) (1 / 2)); [exfalso; lra|].
      destruct (Rlt_dec (1 / 2) (- r - (- IZR f - 1))); [lia | exfalso; lra].
    + destruct (Rlt_dec (1 / 2) (r - IZR f)) as [H2 | H2].
      * destruct (Rlt_dec (- r - (- IZR f - 1)) (1 / 2)); [lia | exfalso; lra].
      * destruct (Rlt_dec (- r - (- IZR f - 1)) (1 / 2)); [exfalso; lra|].
        destruct (Rlt_dec (1 / 2) (- r - (- IZR f - 1))); [exfalso; lra|].
        replace (- f - 1)%Z with (- (f + 1))%Z by lia.
        rewrite Z.even_opp, Z.even_add. simpl.
        destruct (Z.even f); simpl; lia.
Qed.

Lemma ilog2_opp x : ilog2 (- x) = ilog2 x.
Proof. unfold ilog2. now rewrite Rabs_Ropp. Qed.

Lemma float32_opp x : float32 (- x) = - float32 x.
Proof.
  unfold float32, ulp_exp. rewrite ilog2_opp.
  rewrite Ropp_mult_distr_l_reverse, rne_opp, opp_IZR. ring.
Qed.

Lemma ln_powerRZ_2 k : ln (powerRZ 2 k) = IZR k * ln 2.
Proof.
  rewrite powerRZ_Rpower by lra. unfold Rpower. apply ln_exp.
Qed.

Lemma ln2_pos : 0 < ln 2.
Proof. pose proof ln_lt_2. lra. Qed.

Lemma ilog2_lt x k : 0 < Rabs x < powerRZ 2 k -> (ilog2 x < k)%Z.
Proof.
  intros [H0 H1]. unfold ilog2.
  pose proof (Int_part_bounds (ln (Rabs x) / ln 2)) as [Hlo _].
  assert (Hl : ln (Rabs x) < IZR k * ln 2)
    by (rewrite <- ln_powerRZ_2; now apply ln_increasing).
  assert (Hq : ln (Rabs x) / ln 2 < IZR k).
  { apply (Rmult_lt_reg_r (ln 2)); [apply ln2_pos|].
    unfold Rdiv. rewrite Rmult_assoc, Rinv_l by (pose proof ln2_pos; lra).
    lra. }
  apply lt_IZR. lra.
Qed.

Lemma powerRZ_2_IZR n : (0 <= n)%Z -> powerRZ 2 n = IZR (2 ^ n).
Proof.
  intros H. destruct n as [|p|p]; [reflexivity | | lia].
  simpl. rewrite pow_IZR, positive_nat_Z. reflexivity.
Qed.

Lemma float32_fixed x : is_float32 x -> float32 x = x.
Proof.
  intros (m & c & Hm & [Hc _] & ->).
  destruct (Z.eq_dec m 0) as [-> | Hm0].
  { unfold float32. rewrite !Rmult_0_l, (rne_IZR 0). ring. }
  assert (Hq : (ulp_exp (IZR m * powerRZ 2 c) <= c)%Z).
  { unfold ulp_exp.
    assert (ilog2 (IZR m * powerRZ 2 c) < c + 24)%Z; [|lia].
    apply ilog2_lt.
    assert (Hp : 0 < powerRZ 2 c) by (apply powerRZ_lt; lra).
    rewrite Rabs_mult, (Rabs_pos_eq (powerRZ 2 c)) by lra.
    rewrite <- abs_IZR.
    assert (H1 : 1 <= IZR (Z.abs m)) by (apply IZR_le; lia).
    assert (H2 : IZR (Z.abs m) < IZR (2 ^ 24)) by (now apply IZR_lt).
    rewrite Z.add_comm, powerRZ_add by lra.
    rewrite (powerRZ_2_IZR 24) by lia.
    split; nra. }
  unfold float32. set (q := ulp_exp (IZR m * powerRZ 2 c)) in *.
  assert (E : IZR m * powerRZ 2 c * powerRZ 2 (- q) = IZR (m * 2 ^ (c - q))).
  { rewrite Rmult_assoc, <- powerRZ_add by lra.
    replace (c + - q)%Z with (c - q)%Z by lia.
    rewrite powerRZ_2_IZR by lia. now rewrite mult_IZR. }
  rewrite E, rne_IZR, mult_IZR, <- powerRZ_2_IZR by lia.
  rewrite Rmult_assoc, <- powerRZ_add by lra.
  now replace (c - q + q)%Z with c by lia.
Qed.

Lemma is_float32_IZR z : (Z.abs z < 2 ^ 24)%Z -> is_float32 (IZR z).
Proof.
  intros H. exists z, 0%Z. split; [assumption|]. split; [lia|].
  simpl. ring.
Qed.

Lemma float32_0 : float32 0 = 0.
Proof. apply float32_fixed, (is_float32_IZR 0). reflexivity. Qed.

Lemma float32_1 : float32 1 = 1.
Proof. apply float32_fixed, (is_float32_IZR 1). reflexivity. Qed.

Lemma pow2_not_mult5 n : (0 <= n)%Z -> forall k, (2 ^ n <> 5 * k)%Z.
Proof.
  intros Hn k E.
  assert (H : (2 ^ n mod 5 = 0)%Z) by (rewrite E, Z.mul_comm; apply Z_mod_mult).
  revert H. pattern n. apply natlike_ind; [discriminate | | assumption].
  intros x Hx IH H. apply IH.
  rewrite Z.pow_succ_r in H by assumption.
  rewrite Z.mul_mod in H by lia.
  pose proof (Z.mod_pos_bound (2 ^ x) 5 ltac:(lia)) as Hb.
  set (r := (2 ^ x mod 5)%Z) in *.
  assert (r = 0 \/ r = 1 \/ r = 2 \/ r = 3 \/ r = 4)%Z as Hr by lia.
  destruct Hr as [-> | [-> | [-> | [-> | ->]]]];
    [reflexivity | | | | ]; vm_compute in H; discriminate H.
Qed.

Lemma tenth_not_dyadic k q : IZR k * powerRZ 2 q <> 1 / 10.
Proof.
  intros E. destruct (Z_le_gt_dec 0 q) as [Hq | Hq].
  - rewrite powerRZ_2_IZR in E by assumption.
    assert (H : IZR (10 * (k * 2 ^ q)) = IZR 1)
      by (rewrite !mult_IZR; lra).
    apply eq_IZR in H. lia.
  - assert (Hp : powerRZ 2 q * powerRZ 2 (- q) = 1).
    { rewrite <- powerRZ_add by lra. now replace (q + - q)%Z with 0%Z by lia. }
    rewrite (powerRZ_2_IZR (- q)) in Hp by lia.
    assert (H : IZR (10 * k) = IZR (2 ^ (- q))).
    { rewrite mult_IZR.
      assert (IZR k * (powerRZ 2 q * IZR (2 ^ (- q))) = 1 / 10 * IZR (2 ^ (- q)))
        by (rewrite <- Rmult_assoc, E; reflexivity).
      rewrite Hp in H. lra. }
    apply eq_IZR in H.
    apply (pow2_not_mult5 (- q) ltac:(lia) (2 * k)%Z). lia.
Qed.

Lemma float32_tenth : float32 (1 / 10) <> 1 / 10.
Proof. unfold float32. apply tenth_not_dyadic. Qed.

Lemma in_float32_range_IZR z :
  (Z.abs z < 2 ^ 24)%Z -> in_float32_range (IZR z).
Proof.
  intros H. unfold in_float32_range.
  rewrite <- abs_IZR, (powerRZ_2_IZR 104), <- mult_IZR by lia.
  apply IZR_le. lia.
Qed.

Lemma shape2_to_float32 t : shape2 (to_float32 t) = shape2 t.
Proof. reflexivity. Qed.

(** The float32 values of a concrete instance. *)
Ltac f32_values := rewrite ?float32_0, ?float32_1 in *.

Section CallFacts.
Variables (X : T2) (Y : option T2) (s : ProtoNN).

Lemma call_invalid :
  validInit s = false -> call X Y s = (s, inl UninitializedModel).
Proof. intros H. unfold call. unmonad. rewrite H. reflexivity. Qed.

Lemma call_memo y :
  validInit s = true -> protoNNOut s = Some y -> call X Y s = (s, inr y).
Proof. intros H1 H2. unfold call. unmonad. rewrite H1, H2. reflexivity. Qed.

Lemma call_cached_state :
  protoNNOut s <> None -> fst (call X Y s) = s.
Proof.
  intros H. destruct (validInit s) eqn:Hv.
  - destruct (protoNNOut s) as [y|] eqn:Hy; [|congruence].
    now rewrite (call_memo y).
  - now rewrite call_invalid.
Qed.

Lemma call_frame :
  let s' := fst (call X Y s) in
  d s' = d s /\ d_cap s' = d_cap s /\ m s' = m s /\ L s' = L s /\
  W s' = W s /\ B s' = B s /\ Z s' = Z s /\ gamma s' = gamma s /\
  validInit s' = validInit s.
Proof.
  unfold call. unmonad. step_cases; repeat split; simpl; congruence.
Qed.

Lemma call_returns y s' :
  call X Y s = (s', inr y) -> protoNNOut s' = Some y /\ validInit s' = true.
Proof.
  unfold call. unmonad. step_cases; intros H; inversion H; subst; simpl;
    split; congruence.
Qed.

Lemma call_error_kind e :
  validInit s = true -> snd (call X Y s) = inl e ->
  exists op, e = InvalidArgumentError op.
Proof.
  intros Hv. unfold call. unmonad. rewrite Hv. simpl.
  unfold matmul, reshape_m1_k_1, reshape_1_k_m1, sub3, multiply3,
    broadcast3, argmax1, equal1.
  step_cases; intros H; inversion H; subst; eauto.
Qed.
End CallFacts.

(** ** Construction *)

Lemma shape2_eq (t : T2) (r c : nat) :
  shape2 t = (r, c) <->
  Nat.eqb (fst (shape2 t)) r = true /\ Nat.eqb (snd (shape2 t)) c = true.
Proof.
  rewrite !Nat.eqb_eq. destruct (shape2 t) as [a b]; simpl.
  split; [intros H; inversion H; auto | intros [-> ->]; reflexivity].
Qed.

Lemma six_checks_shapes (s : ProtoNN) :
  six_checks s = true <->
  shape2 (W s) = (d s, d_cap s) /\ shape2 (B s) = (d_cap s, m s) /\
  shape2 (Z s) = (L s, m s).
Proof.
  unfold six_checks. rewrite !andb_true_iff, !shape2_eq. tauto.
Qed.

Lemma validateInit_spec (s : ProtoNN) :
  validateInit s =
  if six_checks s then (set_validInit true (set_validInit false s), inr tt)
  else (set_validInit false s, inl DimensionMismatch).
Proof.
  unfold validateInit, getHyperParams, six_checks. unmonad.
  repeat match goal with
    | |- context [Nat.eqb ?a ?b] => destruct (Nat.eqb a b); simpl
    end; reflexivity.
Qed.

Lemma initWBZ_shapes rnd d d_cap m L W B Z W' B' Z' :
  initWBZ rnd d d_cap m L W B Z = (W', B', Z') ->
  (shape2 W' = (d, d_cap) <-> shape_ok W (d, d_cap)) /\
  (shape2 B' = (d_cap, m) <-> shape_ok B (d_cap, m)) /\
  (shape2 Z' = (L, m) <-> shape_ok Z (L, m)).
Proof.
  unfold initWBZ. intros H. inversion H; subst; clear H.
  rewrite !shape2_to_float32. destruct W, B, Z; simpl; tauto.
Qed.

Lemma init_spec rnd d d_cap m L g W B Z :
  (shape_ok W (d, d_cap) /\ shape_ok B (d_cap, m) /\ shape_ok Z (L, m) ->
   init rnd d d_cap m L g W B Z = inr (built rnd d d_cap m L g W B Z)) /\
  (~ (shape_ok W (d, d_cap) /\ shape_ok B (d_cap, m) /\ shape_ok Z (L, m)) ->
   init rnd d d_cap m L g W B Z = inl DimensionMismatch).
Proof.
  unfold init, built.
  destruct (initWBZ rnd d d_cap m L W B Z) as [[W' B'] Z'] eqn:E.
  apply initWBZ_shapes in E. destruct E as (EW & EB & EZ).
  match goal with |- context [bind validateInit ?k ?s] =>
    pose proof (six_checks_shapes s) as Hs;
    replace (bind validateInit k s)
      with (if six_checks s
            then k tt (set_validInit true (set_validInit false s))
            else (set_validInit false s, inl DimensionMismatch))
      by (unfold bind; rewrite validateInit_spec;
          destruct (six_checks s); reflexivity);
    destruct (six_checks s)
  end; simpl in Hs; split; intros H.
  - reflexivity.
  - exfalso. apply H. destruct Hs as [Hs _]. specialize (Hs eq_refl). tauto.
  - assert (false = true) by (apply Hs; tauto). discriminate.
  - reflexivity.
Qed.

Lemma init_inv rnd d d_cap m L g W B Z s :
  init rnd d d_cap m L g W B Z = inr s ->
  s = built rnd d d_cap m L g W B Z /\
  shape_ok W (d, d_cap) /\ shape_ok B (d_cap, m) /\ shape_ok Z (L, m).
Proof.
  intros H. destruct (init_spec rnd d d_cap m L g W B Z) as [Hok Hbad].
  assert (Hdec : (shape_ok W (d, d_cap) /\ shape_ok B (d_cap, m) /\
                  shape_ok Z (L, m)) \/
                 ~ (shape_ok W (d, d_cap) /\ shape_ok B (d_cap, m) /\
                    shape_ok Z (L, m))).
  { pose proof (six_checks_shapes (built rnd d d_cap m L g W B Z)) as Hs.
    unfold built in Hs.
    destruct (initWBZ rnd d d_cap m L W B Z) as [[W' B'] Z'] eqn:E.
    apply initWBZ_shapes in E. simpl in Hs.
    match type of Hs with ?b = true <-> _ => destruct b end.
    - left. destruct Hs as [Hs _]. specialize (Hs eq_refl). tauto.
    - right. intros H'. assert (false = true) by (apply Hs; tauto).
      discriminate. }
  destruct Hdec as [Hy | Hn].
  - rewrite (Hok Hy) in H. inversion H. auto.
  - rewrite (Hbad Hn) in H. discriminate.
Qed.

Lemma built_shapes rnd d0 dc m0 L0 g W0 B0 Z0 :
  shape_ok W0 (d0, dc) -> shape_ok B0 (dc, m0) -> shape_ok Z0 (L0, m0) ->
  let s := built rnd d0 dc m0 L0 g W0 B0 Z0 in
  shape2 (W s) = (d0, dc) /\ shape2 (B s) = (dc, m0) /\
  shape2 (Z s) = (L0, m0) /\ validInit s = true /\ protoNNOut s = None /\
  accuracy s = None /\ predictions s = None /\ gamma s = float32 g.
Proof.
  intros HW HB HZ. unfold built.
  destruct (initWBZ rnd d0 dc m0 L0 W0 B0 Z0) as [[W' B'] Z'] eqn:E.
  apply initWBZ_shapes in E. simpl. tauto.
Qed.

(** ** The computing call *)

Lemma bdim_refl k : bdim k k = Some k.
Proof. unfold bdim. now rewrite Nat.eqb_refl. Qed.

Lemma bdim_1_l k : bdim 1 k = Some k.
Proof.
  unfold bdim. destruct (Nat.eqb_spec 1 k) as [<- | _]; reflexivity.
Qed.

Lemma bdim_1_r k : bdim k 1 = Some k.
Proof.
  unfold bdim. destruct (Nat.eqb_spec k 1) as [-> | _]; reflexivity.
Qed.

Section Computing.
Variables (X : T2) (s : ProtoNN) (l2 : T3) (y : T2) (p : I1).
Hypothesis Hvalid : validInit s = true.
Hypothesis Hfresh : protoNNOut s = None.
Hypothesis Hl2 : l2sim_of (W s) (B s) X = inr l2.
Hypothesis Hy : scores_of (Z s) (gamma s) l2 = inr y.
Hypothesis Hp : argmax1 y = inr p.

Lemma call_computes_None :
  call X None s = (computed l2 y p s, inr y).
Proof.
  unfold call. unmonad. rewrite Hvalid, Hfresh. simpl.
  unfold l2sim_of in Hl2. unfold scores_of, kernel in Hy.
  destruct (matmul X (W s)) as [|WX]; [discriminate|]. simpl.
  destruct (reshape_m1_k_1 WX) as [|WX3]; [discriminate|]. simpl.
  destruct (reshape_1_k_m1 (B s)) as [|B3]; [discriminate|]. simpl.
  destruct (sub3 B3 WX3) as [|diff]; [discriminate|]. simpl.
  inversion Hl2; subst l2; clear Hl2.
  destruct (multiply3 _ _) as [|y3]; [discriminate|]. simpl.
  inversion Hy; subst y; clear Hy.
  rewrite Hp. reflexivity.
Qed.

Lemma call_computes_Some Y t cp :
  argmax1 Y = inr t -> equal1 p t = inr cp ->
  call X (Some Y) s =
  (set_accuracy (Some (reduce_mean cp)) (computed l2 y p s), inr y).
Proof.
  intros Ht Hcp.
  unfold call. unmonad. rewrite Hvalid, Hfresh. simpl.
  unfold l2sim_of in Hl2. unfold scores_of, kernel in Hy.
  destruct (matmul X (W s)) as [|WX]; [discriminate|]. simpl.
  destruct (reshape_m1_k_1 WX) as [|WX3]; [discriminate|]. simpl.
  destruct (reshape_1_k_m1 (B s)) as [|B3]; [discriminate|]. simpl.
  destruct (sub3 B3 WX3) as [|diff]; [discriminate|]. simpl.
  inversion Hl2; subst l2; clear Hl2.
  destruct (multiply3 _ _) as [|y3]; [discriminate|]. simpl.
  inversion Hy; subst y; clear Hy.
  rewrite Hp. simpl. rewrite Ht. simpl. rewrite Hcp. reflexivity.
Qed.

(** Whatever [Y] is, the scores and the predictions are cached. *)
Lemma call_computes_any Y :
  let s' := fst (call X Y s) in
  protoNNOut s' = Some y /\ predictions s' = Some p /\ l2sim s' = Some l2.
Proof.
  destruct Y as [Y|]; [|now rewrite call_computes_None].
  unfold call. unmonad. rewrite Hvalid, Hfresh. simpl.
  unfold l2sim_of in Hl2. unfold scores_of, kernel in Hy.
  destruct (matmul X (W s)) as [|WX]; [discriminate|]. simpl.
  destruct (reshape_m1_k_1 WX) as [|WX3]; [discriminate|]. simpl.
  destruct (reshape_1_k_m1 (B s)) as [|B3]; [discriminate|]. simpl.
  destruct (sub3 B3 WX3) as [|diff]; [discriminate|]. simpl.
  inversion Hl2; subst l2; clear Hl2.
  destruct (multiply3 _ _) as [|y3]; [discriminate|]. simpl.
  inversion Hy; subst y; clear Hy.
  rewrite Hp. simpl.
  destruct (argmax1 Y) as [|t]; simpl; [auto|].
  destruct (equal1 p t); simpl; auto.
Qed.
End Computing.

(** Shapes along the computing call. *)
Section Shapes.
Variables (n d0 dc m0 L0 : nat) (W0 B0 Z0 X : T2) (g : R).
Hypothesis HW : shape2 W0 = (d0, dc).
Hypothesis HB : shape2 B0 = (dc, m0).
Hypothesis HZ : shape2 Z0 = (L0, m0).
Hypothesis HX : shape2 X = (n, d0).
Hypothesis Hdc : (1 <= dc)%nat.

Lemma l2sim_of_shape :
  exists l2, l2sim_of W0 B0 X = inr l2 /\ shape3 l2 = (n, 1%nat, m0).
Proof.
  unfold l2sim_of, matmul, reshape_m1_k_1, reshape_1_k_m1, sub3,
    broadcast3, rows, cols.
  rewrite HW, HB, HX. simpl. rewrite Nat.eqb_refl. simpl.
  destruct (Nat.eqb_spec dc 0) as [E | _]; [lia|]. simpl.
  rewrite bdim_1_l, bdim_refl, bdim_1_r.
  eexists. split; [reflexivity|]. reflexivity.
Qed.

Lemma scores_of_shape l2 :
  shape3 l2 = (n, 1%nat, m0) ->
  exists y, scores_of Z0 g l2 = inr y /\ shape2 y = (n, L0).
Proof.
  intros Hl2.
  unfold scores_of, multiply3, broadcast3, kernel, exp3, scale3, map3,
    reshape_1_plus, rows, cols.
  simpl. rewrite HZ, Hl2. simpl.
  rewrite bdim_1_l, bdim_refl, bdim_1_r.
  eexists. split; reflexivity.
Qed.
End Shapes.

Lemma argmax_from_bound f k : forall best i,
  (best < i)%nat -> (argmax_from f best i k < i + k)%nat.
Proof.
  induction k as [|k IH]; intros best i H; simpl; [lia|].
  destruct (Rlt_dec (f best) (f i)).
  - specialize (IH i (S i)). lia.
  - specialize (IH best (S i)). lia.
Qed.

Lemma argmax_row_bound f k : (1 <= k)%nat -> (argmax_row f k < k)%nat.
Proof.
  intros H. unfold argmax_row.
  pose proof (argmax_from_bound f (pred k) 0%nat 1%nat). lia.
Qed.

Lemma argmax1_shape (t : T2) n k :
  shape2 t = (n, k) -> (1 <= k)%nat ->
  exists p, argmax1 t = inr p /\ ilen p = n /\
            (forall i, iat p i = argmax_row (at2 t i) k) /\
            (forall i, (iat p i < k)%nat).
Proof.
  intros Hs Hk. unfold argmax1, rows, cols. rewrite Hs. simpl.
  destruct (Nat.eqb_spec k 0); [lia|].
  eexists. split; [reflexivity|]. simpl. repeat split.
  intros i. now apply argmax_row_bound.
Qed.

(** ** The claims *)

Lemma kernel_entry g t i j k :
  at3 (kernel g t) i j k = exp (- (g ^ 2) * at3 t i j k).
Proof. simpl. f_equal. ring. Qed.

(** C1: the numeric example.  For d=2, d_cap=2, m=1, L=2, W the identity,
    B=[[0],[0]], Z=[[1],[0]], gamma=1 and X=[[0,0]], construction succeeds
    and the first call runs projection, squared distance, the kernel
    [exp(-(gamma^2)*l2sim)] and the Z-weighted sum over the prototypes:
    l2sim is 0, the kernel weight is 1, the scores are [[1,0]] and the
    predictions are [0]. *)
Theorem C1_numeric_example :
  exists s l2 y p,
    init Example1.rnd 2 2 1 2 1
      (Some Example1.W0) (Some Example1.B0) (Some Example1.Z0) = inr s /\
    call Example1.X0 None s = (computed l2 y p s, inr y) /\
    l2sim_of (W s) (B s) Example1.X0 = inr l2 /\
    shape3 l2 = (1, 1, 1)%nat /\ at3 l2 0 0 0 = 0 /\
    (forall g t i j k,
        at3 (kernel g t) i j k = exp (- (g ^ 2) * at3 t i j k)) /\
    at3 (kernel (gamma s) l2) 0 0 0 = 1 /\
    scores_of (Z s) (gamma s) l2 = inr y /\
    shape2 y = (1, 2)%nat /\ to_rows y = [[1; 0]] /\
    getPredictionsOp (computed l2 y p s) = (computed l2 y p s, inr (Some p)) /\
    to_list p = [0%nat].
Proof.
  eexists. do 3 eexists.
  split; [run; reflexivity|].
  split; [run; reflexivity|].
  split; [run; reflexivity|].
  split; [reflexivity|].
  split; [run; f32_values; ring|].
  split; [exact kernel_entry|].
  split; [run; f32_values; exp_zero; reflexivity|].
  split; [run; reflexivity|].
  split; [reflexivity|].
  split; [run; f32_values; exp_zero; repeat f_equal; ring|].
  split; [reflexivity|].
  run. f32_values. exp_zero.
  destruct (Rlt_dec _ _) as [H | H]; [exfalso; lra | reflexivity].
Qed.

Lemma calls_cached cs : forall s,
  protoNNOut s <> None -> calls cs s = s.
Proof.
  induction cs as [|[X Y] cs IH]; intros s H; simpl; [reflexivity|].
  rewrite call_cached_state by assumption. now apply IH.
Qed.

(** C2: once a call has returned an output, every later call, with the
    same or with another input, with or without labels, returns that very
    output and leaves the instance as it is; the output is never rebuilt. *)
Theorem C2_memoized_output (s s' : ProtoNN) (X : T2) (Y : option T2) (y : T2) :
  call X Y s = (s', inr y) ->
  protoNNOut s' = Some y /\
  (forall X' Y', call X' Y' s' = (s', inr y)) /\
  (forall cs X' Y', call X' Y' (calls cs s') = (s', inr y)).
Proof.
  intros H. apply call_returns in H. destruct H as [Hout Hv].
  split; [assumption|].
  assert (Hm : forall X' Y', call X' Y' s' = (s', inr y))
    by (intros; now apply call_memo).
  split; [assumption|].
  intros cs X' Y'. rewrite calls_cached by congruence. apply Hm.
Qed.

Lemma C2_memoized_output_witness :
  exists y,
    call Example1.X0 None Example1.s0 = (Example1.s1, inr y) /\
    call Example1.X1 (Some Example1.Y1) Example1.s1 = (Example1.s1, inr y).
Proof.
  eexists. split.
  - run. reflexivity.
  - refine (proj1 (proj2 (C2_memoized_output Example1.s0 Example1.s1
                            Example1.X0 None _ _)) _ _).
    run. reflexivity.
Defined.

Lemma call_mirror X Y s :
  call X Y (mirror s) = (mirror (fst (call X Y s)), snd (call X Y s)).
Proof.
  unfold call. unmonad.
  replace (-1 * - gamma s * - gamma s) with (-1 * gamma s * gamma s) by ring.
  step_cases; reflexivity.
Qed.

Lemma calls_mirror cs : forall s, calls cs (mirror s) = mirror (calls cs s).
Proof.
  induction cs as [|[X Y] cs IH]; intros s; simpl; [reflexivity|].
  rewrite call_mirror. simpl. apply IH.
Qed.

Lemma built_mirror rnd d0 dc m0 L0 g W0 B0 Z0 :
  built rnd d0 dc m0 L0 (- g) W0 B0 Z0 = mirror (built rnd d0 dc m0 L0 g W0 B0 Z0).
Proof.
  unfold built. destruct (initWBZ rnd d0 dc m0 L0 W0 B0 Z0) as [[? ?] ?].
  unfold mirror. simpl. now rewrite float32_opp.
Qed.

(** C3: sign invariance.  Two instances built from the same W, B, Z (and
    the same initial draws) with [gamma = g] and [gamma = -g] either both
    fail to build, with the same exception, or both build, and then every
    call, after any common history of calls, gives the same result: the
    same scores, or the same exception. *)
Theorem C3_gamma_sign rnd d0 dc m0 L0 (g : R) W0 B0 Z0 :
  match init rnd d0 dc m0 L0 g W0 B0 Z0,
        init rnd d0 dc m0 L0 (- g) W0 B0 Z0 with
  | inr s1, inr s2 =>
      forall cs X Y,
        snd (call X Y (calls cs s2)) = snd (call X Y (calls cs s1))
  | inl e1, inl e2 => e1 = e2
  | _, _ => False
  end.
Proof.
  destruct (init rnd d0 dc m0 L0 g W0 B0 Z0) as [e1 | s1] eqn:E1.
  - destruct (init_spec rnd d0 dc m0 L0 g W0 B0 Z0) as [Hok Hbad].
    destruct (init_spec rnd d0 dc m0 L0 (- g) W0 B0 Z0) as [_ Hbad'].
    assert (Hn : ~ (shape_ok W0 (d0, dc) /\ shape_ok B0 (dc, m0) /\
                    shape_ok Z0 (L0, m0)))
      by (intros Hs; rewrite (Hok Hs) in E1; discriminate).
    rewrite (Hbad' Hn). rewrite (Hbad Hn) in E1. congruence.
  - apply init_inv in E1. destruct E1 as (-> & Hs).
    destruct (init_spec rnd d0 dc m0 L0 (- g) W0 B0 Z0) as [Hok _].
    rewrite (Hok Hs). intros cs X Y.
    rewrite built_mirror, calls_mirror, call_mirror. reflexivity.
Qed.

Lemma shape_bad_not_ok t sh : shape_bad t sh -> ~ shape_ok t sh.
Proof. destruct t; simpl; auto. Qed.

(** C4: when a supplied W is not [d, d_cap], or a supplied B is not
    [d_cap, m], or a supplied Z is not [L, m], the constructor raises the
    shape assertion and returns no instance; the message of the assertion
    names the expected shapes W[d, d_cap], B[d_cap, m] and Z[L, m]. *)
Theorem C4_dimension_mismatch rnd d0 dc m0 L0 (g : R) W0 B0 Z0 :
  shape_bad W0 (d0, dc) \/ shape_bad B0 (dc, m0) \/ shape_bad Z0 (L0, m0) ->
  init rnd d0 dc m0 L0 g W0 B0 Z0 = inl DimensionMismatch /\
  DimensionMismatch =
    AssertionError
      "Dimensions mismatch! Should be W[d, d_cap], B[d_cap, m] and Z[L, m]" /\
  contains "W[d, d_cap]" errmsg = true /\
  contains "B[d_cap, m]" errmsg = true /\
  contains "Z[L, m]" errmsg = true.
Proof.
  intros H. split; [|repeat split].
  apply init_spec. intros (HW & HB & HZ).
  destruct H as [H | [H | H]]; eapply shape_bad_not_ok; eauto.
Qed.

Lemma C4_dimension_mismatch_witness :
  init Example1.rnd 2 2 1 2 1
    (Some Example1.W3) (Some Example1.B0) (Some Example1.Z0)
  = inl DimensionMismatch.
Proof.
  refine (proj1 (C4_dimension_mismatch Example1.rnd 2 2 1 2 1
                   (Some Example1.W3) (Some Example1.B0) (Some Example1.Z0)
                   _)).
  left. simpl. intros H. discriminate H.
Defined.

(** C5 as stated fails: with matrices of the declared shapes and
    gamma = 1/10, which is not a float32 number, [getHyperParams] and
    [getModelMatrices] do not return the gamma that was supplied. *)
Lemma C5_counterexample :
  shape2 Example1.W0 = (2, 2)%nat /\ shape2 Example1.B0 = (2, 1)%nat /\
  shape2 Example1.Z0 = (2, 1)%nat /\
  match init Example1.rnd 2 2 1 2 (1 / 10)
          (Some Example1.W0) (Some Example1.B0) (Some Example1.Z0) with
  | inr s =>
      snd (getHyperParams s) <> inr (2%nat, 2%nat, 1%nat, 2%nat, 1 / 10) /\
      snd (getModelMatrices s)
      <> inr (Example1.W0, Example1.B0, Example1.Z0, 1 / 10)
  | inl _ => False
  end.
Proof.
  repeat (split; [reflexivity|]).
  run. split; intros H; apply float32_tenth; congruence.
Qed.

(** C5, amended: with W, B and Z supplied at exactly the shapes
    [d, d_cap], [d_cap, m] and [L, m], and values within the float32 range,
    the constructor returns an instance; on it [getHyperParams] returns
    (d, d_cap, m, L, gamma) and [getModelMatrices] returns (W, B, Z, gamma)
    with gamma and every matrix entry converted to float32, and neither
    changes the instance.  What they return is exactly what was supplied
    when the supplied values are float32 numbers. *)
Theorem C5_construction_accessors rnd d0 dc m0 L0 (g : R) (W0 B0 Z0 : T2) :
  shape2 W0 = (d0, dc) -> shape2 B0 = (dc, m0) -> shape2 Z0 = (L0, m0) ->
  in_float32_range g -> entries in_float32_range W0 ->
  entries in_float32_range B0 -> entries in_float32_range Z0 ->
  exists s,
    init rnd d0 dc m0 L0 g (Some W0) (Some B0) (Some Z0) = inr s /\
    getHyperParams s = (s, inr (d0, dc, m0, L0, float32 g)) /\
    getModelMatrices s
    = (s, inr (to_float32 W0, to_float32 B0, to_float32 Z0, float32 g)) /\
    (is_float32 g -> float32 g = g) /\
    (entries is_float32 W0 -> same_tensor (to_float32 W0) W0) /\
    (entries is_float32 B0 -> same_tensor (to_float32 B0) B0) /\
    (entries is_float32 Z0 -> same_tensor (to_float32 Z0) Z0).
Proof.
  intros HW HB HZ _ _ _ _.
  exists (built rnd d0 dc m0 L0 g (Some W0) (Some B0) (Some Z0)).
  split; [apply init_spec; simpl; auto|].
  split; [reflexivity|]. split; [reflexivity|].
  split; [exact (float32_fixed g)|].
  assert (Hsame : forall t, entries is_float32 t -> same_tensor (to_float32 t) t).
  { intros t Ht. split; [reflexivity|].
    intros i j Hi Hj. simpl. apply float32_fixed. now apply Ht. }
  repeat split; try apply Hsame; assumption.
Qed.

Lemma C5_construction_accessors_witness :
  exists s,
    init Example1.rnd 2 2 1 2 1
      (Some Example1.W0) (Some Example1.B0) (Some Example1.Z0) = inr s /\
    getHyperParams s = (s, inr (2%nat, 2%nat, 1%nat, 2%nat, float32 1)) /\
    getModelMatrices s
    = (s, inr (to_float32 Example1.W0, to_float32 Example1.B0,
               to_float32 Example1.Z0, float32 1)) /\
    (is_float32 1 -> float32 1 = 1) /\
    (entries is_float32 Example1.W0 ->
     same_tensor (to_float32 Example1.W0) Example1.W0) /\
    (entries is_float32 Example1.B0 ->
     same_tensor (to_float32 Example1.B0) Example1.B0) /\
    (entries is_float32 Example1.Z0 ->
     same_tensor (to_float32 Example1.Z0) Example1.Z0).
Proof.
  apply (C5_construction_accessors Example1.rnd 2 2 1 2 1
           Example1.W0 Example1.B0 Example1.Z0);
    try reflexivity;
    try (apply (in_float32_range_IZR 1); reflexivity);
    intros i j Hi Hj; cbv in Hi, Hj;
    destruct i as [|[|i]]; try lia;
    destruct j as [|[|j]]; try lia;
    first [ apply (in_float32_range_IZR 1); reflexivity
          | apply (in_float32_range_IZR 0); reflexivity ].
Defined.

Lemma calls_valid cs : forall s, validInit (calls cs s) = validInit s.
Proof.
  induction cs as [|[X Y] cs IH]; intros s; simpl; [reflexivity|].
  rewrite IH. apply call_frame.
Qed.

(** C9: [__validateInit] leaves the flag true exactly when the six shape
    tests pass, and raises otherwise; [__call__] on a flag that is false
    raises the initialization assertion at once and touches nothing; and an
    instance the constructor returned has passed the six tests, has the
    flag true, keeps it true over any calls, and its calls never raise that
    assertion. *)
Theorem C9_validity_flag :
  (forall s,
      (validInit (fst (validateInit s)) = true <-> six_checks s = true) /\
      (snd (validateInit s) = inr tt <-> six_checks s = true) /\
      (six_checks s = false ->
       snd (validateInit s) = inl DimensionMismatch)) /\
  (forall s X Y,
      validInit s = false -> call X Y s = (s, inl UninitializedModel)) /\
  (forall rnd d0 dc m0 L0 g W0 B0 Z0 s,
      init rnd d0 dc m0 L0 g W0 B0 Z0 = inr s ->
      six_checks s = true /\ validInit s = true /\
      forall cs X Y,
        validInit (calls cs s) = true /\
        snd (call X Y (calls cs s)) <> inl UninitializedModel).
Proof.
  split; [|split].
  - intros s. rewrite validateInit_spec.
    destruct (six_checks s); simpl; repeat split; intros; congruence.
  - intros s X Y. apply call_invalid.
  - intros rnd d0 dc m0 L0 g W0 B0 Z0 s H.
    apply init_inv in H. destruct H as (-> & HW & HB & HZ).
    pose proof (built_shapes rnd d0 dc m0 L0 g _ _ _ HW HB HZ) as Hb.
    cbv zeta in Hb. destruct Hb as (HW' & HB' & HZ' & Hv & _).
    split.
    { apply six_checks_shapes. revert HW' HB' HZ'. unfold built.
      destruct (initWBZ rnd d0 dc m0 L0 W0 B0 Z0) as [[? ?] ?]. simpl.
      auto. }
    split; [assumption|].
    intros cs X Y.
    assert (Hc : validInit
                   (calls cs (built rnd d0 dc m0 L0 g W0 B0 Z0)) = true)
      by (rewrite calls_valid; assumption).
    split; [assumption|].
    intros E. destruct (call_error_kind X Y _ _ Hc E) as [op Hop].
    discriminate Hop.
Qed.

Lemma C9_validity_flag_witness :
  validInit Example1.s0 = true /\
  snd (call Example1.X0 None Example1.s0) <> inl UninitializedModel.
Proof.
  destruct C9_validity_flag as (_ & _ & H).
  destruct (H Example1.rnd 2%nat 2%nat 1%nat 2%nat 1
              (Some Example1.W0) (Some Example1.B0) (Some Example1.Z0)
              Example1.s0 eq_refl) as (_ & Hv & Hc).
  split; [exact Hv|]. exact (proj2 (Hc [] Example1.X0 None)).
Defined.

(** ** Accuracy *)

Lemma getAccuracyOp_spec s :
  (accuracy_raises s <-> accuracy s = None) /\
  (forall a, accuracy s = Some a <-> getAccuracyOp s = (s, inr a)).
Proof.
  unfold accuracy_raises, getAccuracyOp. unmonad.
  destruct (accuracy s) as [a|]; simpl; split.
  - split; intros H; discriminate H.
  - intros a'. split; intros H; inversion H; reflexivity.
  - split; reflexivity.
  - intros a'. split; intros H; discriminate H.
Qed.

Lemma call_None_accuracy X s : accuracy (fst (call X None s)) = accuracy s.
Proof. unfold call. unmonad. step_cases; reflexivity. Qed.

Lemma calls_no_Y_accuracy cs : forall s,
  no_Y cs -> accuracy (calls cs s) = accuracy s.
Proof.
  induction cs as [|[X Y] cs IH]; intros s H; simpl; [reflexivity|].
  inversion H as [|? ? HY Hcs]; subst. simpl in HY. subst Y.
  rewrite IH by assumption. apply call_None_accuracy.
Qed.

Lemma sum_upto_ext k f h :
  (forall i, (i < k)%nat -> f i = h i) -> sum_upto k f = sum_upto k h.
Proof.
  induction k as [|k IH]; intros H; simpl; [reflexivity|].
  rewrite IH by (intros; apply H; lia). rewrite H by lia. reflexivity.
Qed.

Lemma sum_upto_cast_bounds k (b : nat -> bool) :
  0 <= sum_upto k (fun i => cast (b i)) <= INR k.
Proof.
  induction k as [|k IH]; [simpl; lra|].
  rewrite S_INR. simpl. destruct (b k); unfold cast in *; lra.
Qed.

Lemma sum_upto_cast_all k (b : nat -> bool) :
  (forall i, (i < k)%nat -> b i = true) ->
  sum_upto k (fun i => cast (b i)) = INR k.
Proof.
  induction k as [|k IH]; intros H; [reflexivity|].
  rewrite S_INR. simpl. rewrite IH by (intros; apply H; lia).
  rewrite H by lia. reflexivity.
Qed.

Lemma sum_upto_cast_none k (b : nat -> bool) :
  (forall i, (i < k)%nat -> b i = false) ->
  sum_upto k (fun i => cast (b i)) = 0.
Proof.
  induction k as [|k IH]; intros H; [reflexivity|].
  simpl. rewrite IH by (intros; apply H; lia).
  rewrite H by lia. simpl. lra.
Qed.

Lemma bidx_lt n i : (i < n)%nat -> bidx n i = i.
Proof.
  intros H. unfold bidx. destruct (Nat.eqb_spec n 1); [lia | reflexivity].
Qed.

Lemma equal1_same p t n :
  ilen p = n -> ilen t = n ->
  exists cp, equal1 p t = inr cp /\ blen cp = n /\
             forall i, (i < n)%nat ->
                       bat cp i = Nat.eqb (iat p i) (iat t i).
Proof.
  intros Hp Ht. unfold equal1. rewrite Hp, Ht, bdim_refl.
  eexists. split; [reflexivity|]. split; [reflexivity|].
  intros i Hi. simpl. now rewrite bidx_lt.
Qed.

Lemma reduce_mean_spec cp n (b : nat -> bool) :
  blen cp = n -> (1 <= n)%nat ->
  (forall i, (i < n)%nat -> bat cp i = b i) ->
  reduce_mean cp = sum_upto n (fun i => cast (b i)) / INR n /\
  0 <= reduce_mean cp <= 1 /\
  ((forall i, (i < n)%nat -> b i = true) -> reduce_mean cp = 1) /\
  ((forall i, (i < n)%nat -> b i = false) -> reduce_mean cp = 0).
Proof.
  intros Hlen Hn Hb. unfold reduce_mean. rewrite Hlen.
  assert (Hpos : 0 < INR n) by (apply lt_0_INR; lia).
  assert (E : sum_upto n (fun i => cast (bat cp i)) =
              sum_upto n (fun i => cast (b i)))
    by (apply sum_upto_ext; intros; now rewrite Hb).
  rewrite E. pose proof (sum_upto_cast_bounds n b) as [Hlo Hhi].
  split; [reflexivity|]. split; [|split].
  - split.
    + apply Rmult_le_pos; [assumption|].
      left. now apply Rinv_0_lt_compat.
    + apply (Rmult_le_reg_r (INR n)); [assumption|].
      unfold Rdiv. rewrite Rmult_assoc, Rinv_l by lra. lra.
  - intros H. rewrite sum_upto_cast_all by assumption.
    unfold Rdiv. apply Rinv_r. lra.
  - intros H. rewrite sum_upto_cast_none by assumption.
    unfold Rdiv. apply Rmult_0_l.
Qed.

(** ** The scores, entry by entry *)

Section Entries.
Variables (n d0 dc m0 L0 : nat) (W0 B0 Z0 X : T2) (g : R).
Hypothesis HW : shape2 W0 = (d0, dc).
Hypothesis HB : shape2 B0 = (dc, m0).
Hypothesis HZ : shape2 Z0 = (L0, m0).
Hypothesis HX : shape2 X = (n, d0).
Hypothesis Hdc : (1 <= dc)%nat.

Lemma scores_entry l2 y :
  l2sim_of W0 B0 X = inr l2 -> scores_of Z0 g l2 = inr y ->
  forall i l, (i < n)%nat -> (l < L0)%nat ->
    at2 y i l =
    sum_upto m0 (fun p =>
      at2 Z0 l p *
      exp (- (g ^ 2) *
           sum_upto dc (fun k =>
             (at2 B0 k p - sum_upto d0 (fun j => at2 X i j * at2 W0 j k)) ^ 2))).
Proof.
  unfold l2sim_of, scores_of, kernel, matmul, reshape_m1_k_1,
    reshape_1_k_m1, sub3, multiply3, broadcast3, rows, cols.
  rewrite HW, HB, HX. simpl. rewrite Nat.eqb_refl. simpl.
  destruct (Nat.eqb_spec dc 0) as [E | _]; [lia|]. simpl.
  rewrite bdim_1_l, bdim_refl, bdim_1_r. simpl.
  intros El2. inversion El2; subst l2; clear El2. simpl.
  unfold rows, cols. rewrite HZ. simpl.
  rewrite bdim_1_l, bdim_refl, bdim_1_r. simpl.
  intros Ey. inversion Ey; subst y; clear Ey. simpl.
  intros i l Hi Hl. apply sum_upto_ext. intros p Hp.
  rewrite !(bidx_lt n i Hi), !(bidx_lt m0 p Hp), !(bidx_lt L0 l Hl).
  f_equal. f_equal.
  replace (-1 * g * g) with (- (g * (g * 1))) by ring. f_equal.
  apply sum_upto_ext. intros k Hk. rewrite !bidx_lt by assumption.
  reflexivity.
Qed.
End Entries.

(** The first call on a built instance goes through. *)
Lemma built_computes rnd d0 dc m0 L0 (g : R) W0 B0 Z0 s n X :
  init rnd d0 dc m0 L0 g W0 B0 Z0 = inr s ->
  (1 <= dc)%nat -> (1 <= L0)%nat -> shape2 X = (n, d0) ->
  validInit s = true /\ protoNNOut s = None /\ accuracy s = None /\
  exists l2 y p,
    l2sim_of (W s) (B s) X = inr l2 /\
    scores_of (Z s) (gamma s) l2 = inr y /\
    argmax1 y = inr p /\
    shape2 y = (n, L0) /\ ilen p = n /\
    (forall i, iat p i = argmax_row (at2 y i) L0) /\
    (forall i, (iat p i < L0)%nat).
Proof.
  intros Hinit Hdc HL HX.
  apply init_inv in Hinit. destruct Hinit as (-> & HW & HB & HZ).
  pose proof (built_shapes rnd d0 dc m0 L0 g _ _ _ HW HB HZ) as Hb.
  cbv zeta in Hb.
  destruct Hb as (HW' & HB' & HZ' & Hv & Hout & Hacc & _ & Hg).
  repeat (split; [assumption|]).
  destruct (l2sim_of_shape n d0 dc m0 _ _ X HW' HB' HX Hdc) as (l2 & El2 & Sl2).
  destruct (scores_of_shape n m0 L0 _ (gamma (built rnd d0 dc m0 L0 g W0 B0 Z0))
              HZ' l2 Sl2) as (y & Ey & Sy).
  destruct (argmax1_shape y n L0 Sy HL) as (p & Ep & Hlen & Hval & Hlt).
  exists l2, y, p. repeat split; assumption.
Qed.

(** C6 as stated fails: on the instance of the numeric example a first call
    without labels followed by a call with labels leaves no accuracy, so
    [getAccuracyOp] raises although a call did pass labels. *)
Lemma C6_counterexample :
  let cs := [(Example1.X0, None); (Example1.X0, Some Example1.Y0)] in
  init Example1.rnd 2 2 1 2 1
    (Some Example1.W0) (Some Example1.B0) (Some Example1.Z0)
  = inr Example1.s0 /\
  ~ (accuracy_raises (calls cs Example1.s0) <-> no_Y cs).
Proof.
  split; [reflexivity|].
  intros [H _].
  assert (Hr : accuracy_raises
                 (calls [(Example1.X0, None); (Example1.X0, Some Example1.Y0)]
                    Example1.s0))
    by (apply getAccuracyOp_spec; run; reflexivity).
  specialize (H Hr). inversion H as [|? ? _ H2]; subst.
  inversion H2 as [|? ? H3 _]; subst. discriminate H3.
Qed.

(** C6, amended: [getAccuracyOp] raises exactly when the instance holds no
    accuracy, and returns the cached accuracy otherwise, changing nothing.
    A built instance holds none before any call and after any calls that
    pass no labels.  When the first call on a built instance passes labels
    Y of shape [n, L] with an input of shape [n, d], the accuracy is
    cached, and [getAccuracyOp] returns it then and after any further
    calls. *)
Theorem C6_accuracy_availability :
  (forall s,
      (accuracy_raises s <-> accuracy s = None) /\
      (forall a, accuracy s = Some a <-> getAccuracyOp s = (s, inr a))) /\
  (forall rnd d0 dc m0 L0 g W0 B0 Z0 s cs,
      init rnd d0 dc m0 L0 g W0 B0 Z0 = inr s ->
      no_Y cs -> accuracy_raises (calls cs s)) /\
  (forall rnd d0 dc m0 L0 g W0 B0 Z0 s n X Y cs,
      init rnd d0 dc m0 L0 g W0 B0 Z0 = inr s ->
      (1 <= dc)%nat -> (1 <= L0)%nat ->
      shape2 X = (n, d0) -> shape2 Y = (n, L0) ->
      exists s' y a,
        call X (Some Y) s = (s', inr y) /\
        accuracy s' = Some a /\
        getAccuracyOp (calls cs s') = (s', inr a)) /\
  (forall rnd d0 dc m0 L0 g W0 B0 Z0 s X s' y cs,
      init rnd d0 dc m0 L0 g W0 B0 Z0 = inr s ->
      call X None s = (s', inr y) ->
      accuracy_raises (calls cs s')).
Proof.
  split; [exact getAccuracyOp_spec|]. split; [|split].
  - intros rnd d0 dc m0 L0 g W0 B0 Z0 s cs Hinit Hcs.
    apply getAccuracyOp_spec. rewrite calls_no_Y_accuracy by assumption.
    apply init_inv in Hinit. destruct Hinit as (-> & HW & HB & HZ).
    apply (built_shapes rnd d0 dc m0 L0 g _ _ _ HW HB HZ).
  - intros rnd d0 dc m0 L0 g W0 B0 Z0 s n X Y cs Hinit Hdc HL HX HY.
    destruct (built_computes _ _ _ _ _ _ _ _ _ _ n X Hinit Hdc HL HX)
      as (Hv & Hout & _ & l2 & y & p & El2 & Ey & Ep & _ & Hlen & _).
    destruct (argmax1_shape Y n L0 HY HL) as (t & Et & Htlen & _).
    destruct (equal1_same p t n Hlen Htlen) as (cp & Ecp & _).
    rewrite (call_computes_Some X s l2 y p Hv Hout El2 Ey Ep Y t cp Et Ecp).
    do 3 eexists. split; [reflexivity|]. split; [reflexivity|].
    rewrite calls_cached by (simpl; congruence).
    now apply getAccuracyOp_spec.
  - intros rnd d0 dc m0 L0 g W0 B0 Z0 s X s' y cs Hinit Hcall.
    apply init_inv in Hinit. destruct Hinit as (-> & HW & HB & HZ).
    pose proof (built_shapes rnd d0 dc m0 L0 g _ _ _ HW HB HZ) as Hb.
    cbv zeta in Hb. destruct Hb as (_ & _ & _ & _ & _ & Hacc & _).
    pose proof (call_None_accuracy X (built rnd d0 dc m0 L0 g W0 B0 Z0)) as E.
    rewrite Hcall in E. simpl in E.
    apply call_returns in Hcall. destruct Hcall as [Hout _].
    rewrite calls_cached by congruence.
    apply getAccuracyOp_spec. congruence.
Qed.

Lemma C6_accuracy_availability_witness :
  accuracy_raises Example1.s1 /\
  exists s' y a,
    call Example1.X0 (Some Example1.Y0) Example1.s0 = (s', inr y) /\
    accuracy s' = Some a /\
    getAccuracyOp (calls [(Example1.X1, None)] s') = (s', inr a).
Proof.
  destruct C6_accuracy_availability as (_ & H2 & H3 & _). split.
  - apply (H2 Example1.rnd 2%nat 2%nat 1%nat 2%nat 1
             (Some Example1.W0) (Some Example1.B0) (Some Example1.Z0)
             Example1.s0 [(Example1.X0, None)] eq_refl).
    repeat constructor.
  - apply (H3 Example1.rnd 2%nat 2%nat 1%nat 2%nat 1
             (Some Example1.W0) (Some Example1.B0) (Some Example1.Z0)
             Example1.s0 1%nat Example1.X0 Example1.Y0
             [(Example1.X1, None)] eq_refl); (lia || reflexivity).
Defined.

(** C7 as stated fails: after a first call without labels, a call that
    passes the matching one-hot labels returns the cached scores and caches
    no accuracy at all. *)
Lemma C7_counterexample :
  init Example1.rnd 2 2 1 2 1
    (Some Example1.W0) (Some Example1.B0) (Some Example1.Z0)
  = inr Example1.s0 /\
  Example1.s1 = fst (call Example1.X0 None Example1.s0) /\
  (exists y, call Example1.X0 (Some Example1.Y0) Example1.s1
             = (Example1.s1, inr y)) /\
  accuracy (fst (call Example1.X0 (Some Example1.Y0) Example1.s1)) = None.
Proof.
  split; [reflexivity|]. split; [reflexivity|]. split.
  - eexists. run. reflexivity.
  - run. reflexivity.
Qed.

(** C7, amended: when the first call on a built instance (no output cached
    yet) passes an input of shape [n, d], n >= 1, and labels Y of shape
    [n, L], it returns the scores and caches
    accuracy = mean(predictions == argmax(Y, 1)), which lies in [0,1], is
    1 when the label of every row is the prediction of that row and 0 when
    the label of every row differs from it.  A call on an instance that
    holds an output already computes no accuracy. *)
Theorem C7_accuracy_first_call rnd d0 dc m0 L0 (g : R) W0 B0 Z0
    (s : ProtoNN) (n : nat) (X Y : T2) :
  init rnd d0 dc m0 L0 g W0 B0 Z0 = inr s ->
  (1 <= dc)%nat -> (1 <= L0)%nat -> (1 <= n)%nat ->
  shape2 X = (n, d0) -> shape2 Y = (n, L0) ->
  exists s' y p t acc,
    call X (Some Y) s = (s', inr y) /\
    protoNNOut s' = Some y /\ predictions s' = Some p /\
    argmax1 y = inr p /\ argmax1 Y = inr t /\
    accuracy s' = Some acc /\ getAccuracyOp s' = (s', inr acc) /\
    acc = sum_upto n (fun i => cast (Nat.eqb (iat p i) (iat t i))) / INR n /\
    0 <= acc <= 1 /\
    ((forall i, (i < n)%nat -> iat t i = iat p i) -> acc = 1) /\
    ((forall i, (i < n)%nat -> iat t i <> iat p i) -> acc = 0).
Proof.
  intros Hinit Hdc HL Hn HX HY.
  destruct (built_computes _ _ _ _ _ _ _ _ _ _ n X Hinit Hdc HL HX)
    as (Hv & Hout & _ & l2 & y & p & El2 & Ey & Ep & _ & Hlen & _).
  destruct (argmax1_shape Y n L0 HY HL) as (t & Et & Htlen & _).
  destruct (equal1_same p t n Hlen Htlen) as (cp & Ecp & Hblen & Hbat).
  destruct (reduce_mean_spec cp n
              (fun i => Nat.eqb (iat p i) (iat t i)) Hblen Hn Hbat)
    as (Hmean & Hrange & Hall & Hnone).
  exists (set_accuracy (Some (reduce_mean cp)) (computed l2 y p s)),
    y, p, t, (reduce_mean cp).
  split; [now apply call_computes_Some with (t := t)|].
  do 5 (split; [reflexivity || assumption|]).
  split; [now apply getAccuracyOp_spec|].
  split; [assumption|]. split; [assumption|]. split.
  - intros H. apply Hall. intros i Hi. apply Nat.eqb_eq.
    symmetry. now apply H.
  - intros H. apply Hnone. intros i Hi. apply Nat.eqb_neq.
    intros E. apply (H i Hi). now symmetry.
Qed.

Lemma C7_accuracy_first_call_witness :
  exists s' y p t acc,
    call Example1.X0 (Some Example1.Y0) Example1.s0 = (s', inr y) /\
    protoNNOut s' = Some y /\ predictions s' = Some p /\
    argmax1 y = inr p /\ argmax1 Example1.Y0 = inr t /\
    accuracy s' = Some acc /\ getAccuracyOp s' = (s', inr acc) /\
    acc = sum_upto 1 (fun i => cast (Nat.eqb (iat p i) (iat t i))) / INR 1 /\
    0 <= acc <= 1 /\
    ((forall i, (i < 1)%nat -> iat t i = iat p i) -> acc = 1) /\
    ((forall i, (i < 1)%nat -> iat t i <> iat p i) -> acc = 0).
Proof.
  apply (C7_accuracy_first_call Example1.rnd 2 2 1 2 1
           (Some Example1.W0) (Some Example1.B0) (Some Example1.Z0)
           Example1.s0 1 Example1.X0 Example1.Y0);
    (lia || reflexivity).
Defined.

(** C8 as stated fails: after a first call on an input of one row, a call
    on an input of shape [2, d] returns scores of shape [1, L], and the
    cached predictions have length 1. *)
Lemma C8_counterexample :
  init Example1.rnd 2 2 1 2 1
    (Some Example1.W0) (Some Example1.B0) (Some Example1.Z0)
  = inr Example1.s0 /\
  Example1.s1 = fst (call Example1.X0 None Example1.s0) /\
  shape2 Example1.X1 = (2, 2)%nat /\
  exists y p,
    call Example1.X1 None Example1.s1 = (Example1.s1, inr y) /\
    shape2 y = (1, 2)%nat /\ shape2 y <> (2%nat, L Example1.s1) /\
    predictions Example1.s1 = Some p /\ ilen p = 1%nat /\ ilen p <> 2%nat.
Proof.
  split; [reflexivity|]. split; [reflexivity|]. split; [reflexivity|].
  do 2 eexists.
  split; [run; reflexivity|].
  split; [reflexivity|].
  split; [intros H; discriminate H|].
  split; [run; reflexivity|].
  split; [reflexivity|]. intros H; discriminate H.
Qed.

(** C8, amended: on the first call on a built instance (d_cap >= 1,
    L >= 1, no output cached yet), with an input of shape [n, d], the
    scores that are cached, and returned unless the labels raise, have
    shape [n, L], and the cached predictions are argmax(scores, 1), of
    shape [n] and with every value in [0, L-1]. *)
Theorem C8_shapes_first_call rnd d0 dc m0 L0 (g : R) W0 B0 Z0
    (s : ProtoNN) (n : nat) (X : T2) (Y : option T2) :
  init rnd d0 dc m0 L0 g W0 B0 Z0 = inr s ->
  (1 <= dc)%nat -> (1 <= L0)%nat -> shape2 X = (n, d0) ->
  exists y p,
    protoNNOut (fst (call X Y s)) = Some y /\
    predictions (fst (call X Y s)) = Some p /\
    shape2 y = (n, L0) /\ ilen p = n /\
    (forall i, iat p i = argmax_row (at2 y i) L0) /\
    (forall i, (iat p i < L0)%nat) /\
    (Y = None -> snd (call X Y s) = inr y) /\
    (forall y', snd (call X Y s) = inr y' -> y' = y).
Proof.
  intros Hinit Hdc HL HX.
  destruct (built_computes _ _ _ _ _ _ _ _ _ _ n X Hinit Hdc HL HX)
    as (Hv & Hout & _ & l2 & y & p & El2 & Ey & Ep & Sy & Hlen & Hval & Hlt).
  destruct (call_computes_any X s l2 y p Hv Hout El2 Ey Ep Y)
    as (Ho & Hp & _).
  exists y, p. repeat (split; [assumption|]). split.
  - intros ->. now rewrite (call_computes_None X s l2 y p).
  - intros y' H. destruct (call X Y s) as [s' r] eqn:E. simpl in *. subst r.
    apply call_returns in E. destruct E as [E _]. congruence.
Qed.

Lemma C8_shapes_first_call_witness :
  exists y p,
    protoNNOut (fst (call Example1.X1 None Example1.s0)) = Some y /\
    predictions (fst (call Example1.X1 None Example1.s0)) = Some p /\
    shape2 y = (2, 2)%nat /\ ilen p = 2%nat /\
    (forall i, iat p i = argmax_row (at2 y i) 2) /\
    (forall i, (iat p i < 2)%nat) /\
    (@None T2 = None -> snd (call Example1.X1 None Example1.s0) = inr y) /\
    (forall y', snd (call Example1.X1 None Example1.s0) = inr y' -> y' = y).
Proof.
  apply (C8_shapes_first_call Example1.rnd 2 2 1 2 1
           (Some Example1.W0) (Some Example1.B0) (Some Example1.Z0)
           Example1.s0 2 Example1.X1 None);
    (lia || reflexivity).
Defined.

(** C10 as stated fails: a first call without labels that raises, here on
    an input of the wrong width, caches no output; the later call with
    labels then computes and caches the accuracy, and [getAccuracyOp]
    returns it. *)
Lemma C10_counterexample :
  init Example1.rnd 2 2 1 2 1
    (Some Example1.W0) (Some Example1.B0) (Some Example1.Z0)
  = inr Example1.s0 /\
  call Example2.Xw None Example1.s0
  = (Example1.s0, inl (InvalidArgumentError "MatMul")) /\
  exists s' y a,
    call Example1.X0 (Some Example1.Y0)
      (fst (call Example2.Xw None Example1.s0)) = (s', inr y) /\
    accuracy s' = Some a /\
    getAccuracyOp s' = (s', inr a).
Proof.
  split; [reflexivity|]. split; [run; reflexivity|].
  do 3 eexists. split; [run; reflexivity|].
  split; [reflexivity|]. run. reflexivity.
Qed.

(** C10, amended: when the first call on an instance passes no labels and
    returns its scores, a later call that passes labels returns the cached
    output and computes no accuracy: none is cached, then or after any
    further calls, and [getAccuracyOp] raises although labels were passed
    to a call. *)
Theorem C10_late_labels_ignored rnd d0 dc m0 L0 (g : R) W0 B0 Z0
    (s s1 : ProtoNN) (X : T2) (y : T2) :
  init rnd d0 dc m0 L0 g W0 B0 Z0 = inr s ->
  call X None s = (s1, inr y) ->
  forall X' Y',
    call X' (Some Y') s1 = (s1, inr y) /\
    accuracy s1 = None /\
    getAccuracyOp s1 = (s1, inl AccuracyNotAvailable) /\
    forall cs, accuracy_raises (calls cs (fst (call X' (Some Y') s1))).
Proof.
  intros Hinit Hcall X' Y'.
  apply init_inv in Hinit. destruct Hinit as (-> & HW & HB & HZ).
  pose proof (built_shapes rnd d0 dc m0 L0 g _ _ _ HW HB HZ) as Hb.
  cbv zeta in Hb. destruct Hb as (_ & _ & _ & _ & _ & Hacc & _).
  assert (Hacc1 : accuracy s1 = None).
  { pose proof (call_None_accuracy X (built rnd d0 dc m0 L0 g W0 B0 Z0)) as E.
    rewrite Hcall in E. simpl in E. congruence. }
  apply call_returns in Hcall. destruct Hcall as [Hout Hv].
  assert (Hm : forall X0 Y0, call X0 Y0 s1 = (s1, inr y))
    by (intros; now apply call_memo).
  split; [apply Hm|]. split; [assumption|].
  split; [now apply getAccuracyOp_spec|].
  intros cs. rewrite Hm. simpl. rewrite calls_cached by congruence.
  now apply getAccuracyOp_spec.
Qed.

Lemma C10_late_labels_ignored_witness :
  exists y,
    call Example1.X0 None Example1.s0 = (Example1.s1, inr y) /\
    call Example1.X1 (Some Example1.Y1) Example1.s1 = (Example1.s1, inr y) /\
    accuracy Example1.s1 = None /\
    getAccuracyOp Example1.s1 = (Example1.s1, inl AccuracyNotAvailable).
Proof.
  eexists.
  assert (H : call Example1.X0 None Example1.s0 = (Example1.s1, inr _))
    by (run; reflexivity).
  split; [exact H|].
  pose proof (C10_late_labels_ignored Example1.rnd 2 2 1 2 1
                (Some Example1.W0) (Some Example1.B0) (Some Example1.Z0)
                Example1.s0 Example1.s1 Example1.X0 _ eq_refl H
                Example1.X1 Example1.Y1) as (H1 & H2 & H3 & _).
  exact (conj H1 (conj H2 H3)).
Defined.

(** * Further properties of the code *)

Section EntriesOfL2.
Variables (n d0 dc m0 : nat) (W0 B0 X : T2).
Hypothesis HW : shape2 W0 = (d0, dc).
Hypothesis HB : shape2 B0 = (dc, m0).
Hypothesis HX : shape2 X = (n, d0).
Hypothesis Hdc : (1 <= dc)%nat.

Lemma l2sim_entry l2 :
  l2sim_of W0 B0 X = inr l2 ->
  forall i j p, (i < n)%nat -> (p < m0)%nat ->
    at3 l2 i j p = closed_sqdist d0 dc W0 B0 X i p.
Proof.
  unfold l2sim_of, matmul, reshape_m1_k_1, reshape_1_k_m1, sub3,
    broadcast3, rows, cols, closed_sqdist, closed_proj.
  rewrite HW, HB, HX. simpl. rewrite Nat.eqb_refl. simpl.
  destruct (Nat.eqb_spec dc 0) as [E | _]; [lia|]. simpl.
  rewrite bdim_1_l, bdim_refl, bdim_1_r. simpl.
  intros El2. inversion El2; subst l2; clear El2. simpl.
  intros i j p Hi Hp. apply sum_upto_ext. intros k Hk.
  rewrite (bidx_lt n i Hi), (bidx_lt m0 p Hp), (bidx_lt dc k Hk).
  reflexivity.
Qed.
End EntriesOfL2.

(** The first call on a built instance, with what it caches entry by
    entry. *)
Lemma first_call_entries rnd d0 dc m0 L0 (g : R) W0 B0 Z0 s n X :
  init rnd d0 dc m0 L0 g W0 B0 Z0 = inr s ->
  (1 <= dc)%nat -> (1 <= L0)%nat -> shape2 X = (n, d0) ->
  exists l2 y p,
    validInit s = true /\ protoNNOut s = None /\
    l2sim_of (W s) (B s) X = inr l2 /\
    scores_of (Z s) (gamma s) l2 = inr y /\
    argmax1 y = inr p /\
    shape3 l2 = (n, 1%nat, m0) /\ shape2 y = (n, L0) /\ ilen p = n /\
    (forall i, iat p i = argmax_row (at2 y i) L0) /\
    (forall i j q, (i < n)%nat -> (q < m0)%nat ->
        at3 l2 i j q = closed_sqdist d0 dc (W s) (B s) X i q) /\
    (forall i l, (i < n)%nat -> (l < L0)%nat ->
        at2 y i l =
        closed_score d0 dc m0 (W s) (B s) (Z s) (float32 g) X i l).
Proof.
  intros Hinit Hdc HL HX.
  destruct (built_computes _ _ _ _ _ _ _ _ _ _ n X Hinit Hdc HL HX)
    as (Hv & Hout & _ & l2 & y & p & El2 & Ey & Ep & Sy & Hlen & Hval & _).
  apply init_inv in Hinit. destruct Hinit as (-> & HW & HB & HZ).
  pose proof (built_shapes rnd d0 dc m0 L0 g _ _ _ HW HB HZ) as Hb.
  cbv zeta in Hb. destruct Hb as (HW' & HB' & HZ' & _ & _ & _ & _ & Hg).
  exists l2, y, p. repeat (split; [assumption|]).
  split.
  { destruct (l2sim_of_shape n d0 dc m0 _ _ X HW' HB' HX Hdc)
      as (l2' & El2' & Sl2). congruence. }
  repeat (split; [assumption|]).
  split.
  - exact (l2sim_entry n d0 dc m0 _ _ X HW' HB' HX Hdc l2 El2).
  - rewrite Hg in Ey.
    exact (scores_entry n d0 dc m0 L0 _ _ _ X (float32 g) HW' HB' HZ' HX
             Hdc l2 y El2 Ey).
Qed.





Lemma call_bad_width X Y s :
  validInit s = true -> protoNNOut s = None -> cols X <> rows (W s) ->
  call X Y s = (s, inl (InvalidArgumentError "MatMul")).
Proof.
  intros Hv Hout Hne. unfold call. unmonad. rewrite Hv, Hout. simpl.
  unfold matmul. destruct (Nat.eqb_spec (cols X) (rows (W s))); [tauto|].
  reflexivity.
Qed.

(** X3: on a built instance that holds no output yet, a call whose input
    has a width other than d raises from the matrix product and changes
    nothing: no output, predictions or accuracy are cached, whatever the
    labels, and this for any number of such calls in a row. *)
Theorem X3_wrong_input_width rnd d0 dc m0 L0 (g : R) W0 B0 Z0
    (s : ProtoNN) (cs : list (T2 * option T2)) :
  init rnd d0 dc m0 L0 g W0 B0 Z0 = inr s ->
  Forall (fun c => snd (shape2 (fst c)) <> d0) cs ->
  calls cs s = s /\
  Forall (fun c => call (fst c) (snd c) s
                   = (s, inl (InvalidArgumentError "MatMul"))) cs.
Proof.
  intros Hinit Hcs.
  apply init_inv in Hinit. destruct Hinit as (-> & HW & HB & HZ).
  pose proof (built_shapes rnd d0 dc m0 L0 g _ _ _ HW HB HZ) as Hb.
  cbv zeta in Hb. destruct Hb as (HW' & _ & _ & Hv & Hout & _).
  set (s := built rnd d0 dc m0 L0 g W0 B0 Z0) in *.
  assert (Hrows : rows (W s) = d0) by (unfold rows; now rewrite HW').
  assert (Hall : Forall (fun c => call (fst c) (snd c) s
                   = (s, inl (InvalidArgumentError "MatMul"))) cs).
  { induction Hcs as [|[X Y] cs Hc Hcs IH]; constructor; [|assumption].
    simpl in Hc. simpl fst. simpl snd.
    apply call_bad_width; try assumption.
    rewrite Hrows. exact Hc. }
  split; [|assumption].
  clear Hcs. induction Hall as [|[X Y] cs Hc Hall IH]; simpl; [reflexivity|].
  simpl in Hc. rewrite Hc. simpl. assumption.
Qed.

Lemma X3_wrong_input_width_witness :
  calls [(Example2.Xw, None); (Example2.Xw, Some Example1.Y0)] Example1.s0
  = Example1.s0.
Proof.
  refine (proj1 (X3_wrong_input_width Example1.rnd 2 2 1 2 1
                   (Some Example1.W0) (Some Example1.B0) (Some Example1.Z0)
                   Example1.s0 _ eq_refl _)).
  repeat constructor; simpl; lia.
Defined.

Lemma bdim_none a b : a <> b -> a <> 1%nat -> b <> 1%nat -> bdim a b = None.
Proof.
  intros H1 H2 H3. unfold bdim.
  destruct (Nat.eqb_spec a b); [tauto|].
  destruct (Nat.eqb_spec a 1); [tauto|].
  destruct (Nat.eqb_spec b 1); [tauto|]. reflexivity.
Qed.

Lemma call_labels_raise X s l2 y p Y e :
  validInit s = true -> protoNNOut s = None ->
  l2sim_of (W s) (B s) X = inr l2 ->
  scores_of (Z s) (gamma s) l2 = inr y ->
  argmax1 y = inr p ->
  match argmax1 Y with
  | inl e' => e' = e
  | inr t => equal1 p t = inl e
  end ->
  call X (Some Y) s = (computed l2 y p s, inl e).
Proof.
  intros Hv Hout Hl2 Hy Hp HY.
  unfold call. unmonad. rewrite Hv, Hout. simpl.
  unfold l2sim_of in Hl2. unfold scores_of, kernel in Hy.
  destruct (matmul X (W s)) as [|WX]; [discriminate|]. simpl.
  destruct (reshape_m1_k_1 WX) as [|WX3]; [discriminate|]. simpl.
  destruct (reshape_1_k_m1 (B s)) as [|B3]; [discriminate|]. simpl.
  destruct (sub3 B3 WX3) as [|diff]; [discriminate|]. simpl.
  inversion Hl2; subst l2; clear Hl2.
  destruct (multiply3 _ _) as [|y3]; [discriminate|]. simpl.
  inversion Hy; subst y; clear Hy.
  rewrite Hp. simpl.
  destruct (argmax1 Y) as [e' | t]; simpl; [now subst|].
  rewrite HY. reflexivity.
Qed.

(** X4: labels whose number of rows cannot be broadcast against the batch
    (k rows against n, k <> n, neither being 1) make the first call raise
    from the comparison of predictions and labels, after the scores and the
    predictions have been cached.  The instance is then frozen without an
    accuracy: every later call returns the cached scores and
    [getAccuracyOp] raises, whatever labels those calls pass. *)
Theorem X4_label_rows_mismatch rnd d0 dc m0 L0 (g : R) W0 B0 Z0
    (s : ProtoNN) (n k c : nat) (X Y : T2) :
  init rnd d0 dc m0 L0 g W0 B0 Z0 = inr s ->
  (1 <= dc)%nat -> (1 <= L0)%nat -> (1 <= c)%nat ->
  shape2 X = (n, d0) -> shape2 Y = (k, c) ->
  k <> n -> k <> 1%nat -> n <> 1%nat ->
  exists s' y p,
    call X (Some Y) s = (s', inl (InvalidArgumentError "Equal")) /\
    protoNNOut s' = Some y /\ shape2 y = (n, L0) /\
    predictions s' = Some p /\ accuracy s' = None /\
    (forall X' Y', call X' Y' s' = (s', inr y)) /\
    (forall cs, accuracy_raises (calls cs s')).
Proof.
  intros Hinit Hdc HL Hc HX HY Hkn Hk1 Hn1.
  destruct (built_computes _ _ _ _ _ _ _ _ _ _ n X Hinit Hdc HL HX)
    as (Hv & Hout & Hacc & l2 & y & p & El2 & Ey & Ep & Sy & Hlen & _).
  destruct (argmax1_shape Y k c HY Hc) as (t & Et & Htlen & _).
  assert (Ecall : call X (Some Y) s
                  = (computed l2 y p s, inl (InvalidArgumentError "Equal"))).
  { apply call_labels_raise; try assumption.
    rewrite Et. unfold equal1. rewrite Hlen, Htlen.
    rewrite bdim_none by congruence. reflexivity. }
  exists (computed l2 y p s), y, p.
  split; [assumption|]. split; [reflexivity|]. split; [assumption|].
  split; [reflexivity|]. split; [assumption|].
  assert (Hm : forall X' Y',
             call X' Y' (computed l2 y p s) = (computed l2 y p s, inr y))
    by (intros; now apply call_memo).
  split; [assumption|].
  intros cs. rewrite calls_cached by (simpl; congruence).
  now apply getAccuracyOp_spec.
Qed.

Lemma X4_label_rows_mismatch_witness :
  exists s' y p,
    call Example1.X1 (Some Example2.Y3) Example1.s0
    = (s', inl (InvalidArgumentError "Equal")) /\
    protoNNOut s' = Some y /\ shape2 y = (2, 2)%nat /\
    predictions s' = Some p /\ accuracy s' = None /\
    (forall X' Y', call X' Y' s' = (s', inr y)) /\
    (forall cs, accuracy_raises (calls cs s')).
Proof.
  apply (X4_label_rows_mismatch Example1.rnd 2 2 1 2 1
           (Some Example1.W0) (Some Example1.B0) (Some Example1.Z0)
           Example1.s0 2 3 2 Example1.X1 Example2.Y3);
    (lia || reflexivity).
Defined.

(** ** Predictions *)

Lemma argmax_from_spec f k : forall best i,
  (best < i)%nat ->
  (forall j, (j < i)%nat -> f j <= f best) ->
  (forall j, (j < best)%nat -> f j < f best) ->
  (forall j, (j < i + k)%nat -> f j <= f (argmax_from f best i k)) /\
  (forall j, (j < argmax_from f best i k)%nat ->
             f j < f (argmax_from f best i k)).
Proof.
  induction k as [|k IH]; intros best i Hlt Hmax Hfirst; simpl.
  - split; [|assumption]. intros j Hj. apply Hmax. lia.
  - replace (i + S k)%nat with (S i + k)%nat by lia.
    destruct (Rlt_dec (f best) (f i)) as [Hb | Hb].
    + apply IH; [lia| |].
      * intros j Hj. destruct (Nat.eq_dec j i) as [-> | Hne]; [lra|].
        assert (f j <= f best) by (apply Hmax; lia). lra.
      * intros j Hj. assert (f j <= f best) by (apply Hmax; lia). lra.
    + apply IH; [lia| |assumption].
      intros j Hj. destruct (Nat.eq_dec j i) as [-> | Hne]; [lra|].
      apply Hmax. lia.
Qed.

Lemma argmax_row_spec f k :
  (1 <= k)%nat ->
  (forall j, (j < k)%nat -> f j <= f (argmax_row f k)) /\
  (forall j, (j < argmax_row f k)%nat -> f j < f (argmax_row f k)).
Proof.
  intros Hk. unfold argmax_row.
  destruct (argmax_from_spec f (pred k) 0%nat 1%nat) as [H1 H2].
  - lia.
  - intros j Hj. replace j with 0%nat by lia. lra.
  - intros j Hj. lia.
  - split; [|assumption]. intros j Hj. apply H1. lia.
Qed.

Lemma argmax_from_ext f h k : forall best i,
  (best < i)%nat ->
  (forall j, (j < i + k)%nat -> f j = h j) ->
  argmax_from f best i k = argmax_from h best i k.
Proof.
  induction k as [|k IH]; intros best i Hlt H; simpl; [reflexivity|].
  rewrite (H best) by lia. rewrite (H i) by lia.
  destruct (Rlt_dec (h best) (h i)); apply IH; try lia;
    intros j Hj; apply H; lia.
Qed.

Lemma argmax_row_ext f h k :
  (forall j, (j < k)%nat -> f j = h j) ->
  argmax_row f k = argmax_row h k.
Proof.
  intros H. unfold argmax_row. destruct k as [|k]; [reflexivity|].
  simpl. apply argmax_from_ext; [lia|]. intros j Hj. apply H. lia.
Qed.

(** X8: the prediction of a row is a label of maximal score, and the
    lowest such label: no label scores higher than the predicted one, every
    label below it scores strictly lower, and a row whose scores are all
    equal is predicted as label 0. *)
Theorem X8_prediction_is_first_maximum rnd d0 dc m0 L0 (g : R) W0 B0 Z0
    (s : ProtoNN) (n : nat) (X : T2) (Y : option T2) :
  init rnd d0 dc m0 L0 g W0 B0 Z0 = inr s ->
  (1 <= dc)%nat -> (1 <= L0)%nat -> shape2 X = (n, d0) ->
  exists y p,
    protoNNOut (fst (call X Y s)) = Some y /\
    predictions (fst (call X Y s)) = Some p /\
    (forall i l, (l < L0)%nat -> at2 y i l <= at2 y i (iat p i)) /\
    (forall i l, (l < iat p i)%nat -> at2 y i l < at2 y i (iat p i)) /\
    (forall i, (forall l, (l < L0)%nat -> at2 y i l = at2 y i 0) ->
               iat p i = 0%nat).
Proof.
  intros Hinit Hdc HL HX.
  destruct (built_computes _ _ _ _ _ _ _ _ _ _ n X Hinit Hdc HL HX)
    as (Hv & Hout & _ & l2 & y & p & El2 & Ey & Ep & _ & _ & Hval & Hlt).
  destruct (call_computes_any X s l2 y p Hv Hout El2 Ey Ep Y)
    as (Ho & Hp & _).
  exists y, p. repeat (split; [assumption|]).
  assert (Hspec : forall i,
             (forall j, (j < L0)%nat -> at2 y i j <= at2 y i (iat p i)) /\
             (forall j, (j < iat p i)%nat -> at2 y i j < at2 y i (iat p i))).
  { intros i. rewrite (Hval i). now apply argmax_row_spec. }
  split; [intros i l; apply Hspec|]. split; [intros i l; apply Hspec|].
  intros i Heq. destruct (Nat.eq_dec (iat p i) 0) as [E | Hne]; [exact E|].
  exfalso. destruct (Hspec i) as [_ H2].
  assert (H0 : at2 y i 0 < at2 y i (iat p i)) by (apply H2; lia).
  rewrite (Heq (iat p i) (Hlt i)) in H0. lra.
Qed.

Lemma X8_prediction_is_first_maximum_witness :
  exists y p,
    protoNNOut (fst (call Example1.X1 None Example1.s0)) = Some y /\
    predictions (fst (call Example1.X1 None Example1.s0)) = Some p /\
    (forall i l, (l < 2)%nat -> at2 y i l <= at2 y i (iat p i)).
Proof.
  destruct (X8_prediction_is_first_maximum Example1.rnd 2 2 1 2 1
              (Some Example1.W0) (Some Example1.B0) (Some Example1.Z0)
              Example1.s0 2 Example1.X1 None eq_refl
              (le_S 1 1 (le_n 1)) (le_S 1 1 (le_n 1)) eq_refl)
    as (y & p & H1 & H2 & H3 & _).
  exists y, p. exact (conj H1 (conj H2 H3)).
Defined.

Lemma calls_frame cs : forall s,
  let s' := calls cs s in
  d s' = d s /\ d_cap s' = d_cap s /\ m s' = m s /\ L s' = L s /\
  W s' = W s /\ B s' = B s /\ Z s' = Z s /\ gamma s' = gamma s /\
  validInit s' = validInit s.
Proof.
  induction cs as [|[X Y] cs IH]; intros s; simpl.
  - repeat split; reflexivity.
  - specialize (IH (fst (call X Y s))). cbv zeta in IH.
    pose proof (call_frame X Y s) as H. cbv zeta in H.
    destruct IH as (?&?&?&?&?&?&?&?&?), H as (?&?&?&?&?&?&?&?&?).
    repeat split; congruence.
Qed.

(** X9: calls never touch the parameters.  After any sequence of calls,
    failing or not, with or without labels, [getHyperParams] still returns
    the hyperparameters given to the constructor and gamma as stored,
    [getModelMatrices] the matrices bound by it, the six shape tests still
    hold and the flag is still true. *)
Theorem X9_calls_keep_parameters rnd d0 dc m0 L0 (g : R) W0 B0 Z0
    (s : ProtoNN) (cs : list (T2 * option T2)) :
  init rnd d0 dc m0 L0 g W0 B0 Z0 = inr s ->
  getHyperParams (calls cs s)
  = (calls cs s, inr (d0, dc, m0, L0, float32 g)) /\
  getModelMatrices (calls cs s)
  = (calls cs s, inr (W s, B s, Z s, float32 g)) /\
  six_checks (calls cs s) = true /\ validInit (calls cs s) = true.
Proof.
  intros Hinit.
  pose proof (calls_frame cs s) as H. cbv zeta in H.
  destruct H as (Hd & Hdc & Hm & HL & HW & HB & HZ & Hg & Hv).
  apply init_inv in Hinit. destruct Hinit as (E & HW0 & HB0 & HZ0).
  pose proof (built_shapes rnd d0 dc m0 L0 g _ _ _ HW0 HB0 HZ0) as Hb.
  cbv zeta in Hb. rewrite <- E in Hb.
  destruct Hb as (HW' & HB' & HZ' & Hv' & _ & _ & _ & Hg').
  assert (Hpar : d s = d0 /\ d_cap s = dc /\ m s = m0 /\ L s = L0).
  { rewrite E. unfold built.
    destruct (initWBZ rnd d0 dc m0 L0 W0 B0 Z0) as [[? ?] ?]. simpl. auto. }
  destruct Hpar as (Ed & Edc & Em & EL).
  unfold getHyperParams, getModelMatrices. unmonad.
  rewrite Hd, Hdc, Hm, HL, HW, HB, HZ, Hg, Ed, Edc, Em, EL, Hg'.
  split; [reflexivity|]. split; [reflexivity|]. split; [|congruence].
  apply six_checks_shapes. rewrite Hd, Hdc, Hm, HL, HW, HB, HZ.
  rewrite Ed, Edc, Em, EL. auto.
Qed.

Lemma X9_calls_keep_parameters_witness :
  getHyperParams
    (calls [(Example2.Xw, None); (Example1.X0, Some Example1.Y0)]
       Example1.s0)
  = (calls [(Example2.Xw, None); (Example1.X0, Some Example1.Y0)]
       Example1.s0, inr (2%nat, 2%nat, 1%nat, 2%nat, float32 1)).
Proof.
  exact (proj1 (X9_calls_keep_parameters Example1.rnd 2 2 1 2 1
                  (Some Example1.W0) (Some Example1.B0) (Some Example1.Z0)
                  Example1.s0 _ eq_refl)).
Defined.

Lemma closed_score_row d0 dc m0 W0 B0 Z0 g X X' i i' l :
  (forall j, (j < d0)%nat -> at2 X i j = at2 X' i' j) ->
  closed_score d0 dc m0 W0 B0 Z0 g X i l
  = closed_score d0 dc m0 W0 B0 Z0 g X' i' l.
Proof.
  intros H.
  assert (Hp : forall k, closed_proj d0 W0 X i k = closed_proj d0 W0 X' i' k).
  { intros k. unfold closed_proj. apply sum_upto_ext.
    intros j Hj. now rewrite H. }
  assert (Hs : forall p, closed_sqdist d0 dc W0 B0 X i p
                         = closed_sqdist d0 dc W0 B0 X' i' p).
  { intros p. unfold closed_sqdist. apply sum_upto_ext.
    intros k _. now rewrite Hp. }
  unfold closed_score, closed_weight. apply sum_upto_ext.
  intros p _. now rewrite Hs.
Qed.

(** X10: the rows of a batch do not interact.  When row i of one input and
    row i' of another input hold the same d features, the first call on
    the one and the first call on the other, from the same built instance,
    give row i and row i' the same scores and the same prediction,
    whatever the other rows and the batch sizes are. *)
Theorem X10_rows_are_independent rnd d0 dc m0 L0 (g : R) W0 B0 Z0
    (s : ProtoNN) (n n' : nat) (X X' : T2) (Y Y' : option T2) (i i' : nat) :
  init rnd d0 dc m0 L0 g W0 B0 Z0 = inr s ->
  (1 <= dc)%nat -> (1 <= L0)%nat ->
  shape2 X = (n, d0) -> shape2 X' = (n', d0) ->
  (i < n)%nat -> (i' < n')%nat ->
  (forall j, (j < d0)%nat -> at2 X i j = at2 X' i' j) ->
  exists y y' p p',
    protoNNOut (fst (call X Y s)) = Some y /\
    protoNNOut (fst (call X' Y' s)) = Some y' /\
    predictions (fst (call X Y s)) = Some p /\
    predictions (fst (call X' Y' s)) = Some p' /\
    (forall l, (l < L0)%nat -> at2 y i l = at2 y' i' l) /\
    iat p i = iat p' i'.
Proof.
  intros Hinit Hdc HL HX HX' Hi Hi' Hrow.
  destruct (first_call_entries _ _ _ _ _ _ _ _ _ _ n X Hinit Hdc HL HX)
    as (l2 & y & p & Hv & Hout & El2 & Ey & Ep & _ & _ & _ & Hval & _ & Hy).
  destruct (first_call_entries _ _ _ _ _ _ _ _ _ _ n' X' Hinit Hdc HL HX')
    as (l2' & y' & p' & _ & _ & El2' & Ey' & Ep' & _ & _ & _ & Hval' & _ & Hy').
  destruct (call_computes_any X s l2 y p Hv Hout El2 Ey Ep Y)
    as (Ho & Hp & _).
  destruct (call_computes_any X' s l2' y' p' Hv Hout El2' Ey' Ep' Y')
    as (Ho' & Hp' & _).
  exists y, y', p, p'. repeat (split; [assumption|]).
  assert (Heq : forall l, (l < L0)%nat -> at2 y i l = at2 y' i' l).
  { intros l Hl. rewrite (Hy i l Hi Hl), (Hy' i' l Hi' Hl).
    now apply closed_score_row. }
  split; [assumption|].
  rewrite Hval, Hval'. now apply argmax_row_ext.
Qed.

Lemma X10_rows_are_independent_witness :
  exists y y' p p',
    protoNNOut (fst (call Example1.X0 None Example1.s0)) = Some y /\
    protoNNOut (fst (call Example1.X1 None Example1.s0)) = Some y' /\
    predictions (fst (call Example1.X0 None Example1.s0)) = Some p /\
    predictions (fst (call Example1.X1 None Example1.s0)) = Some p' /\
    (forall l, (l < 2)%nat -> at2 y 0 l = at2 y' 0 l) /\
    iat p 0 = iat p' 0.
Proof.
  apply (X10_rows_are_independent Example1.rnd 2 2 1 2 1
           (Some Example1.W0) (Some Example1.B0) (Some Example1.Z0)
           Example1.s0 1 2 Example1.X0 Example1.X1 None None 0 0);
    (lia || reflexivity).
Defined.

(** X11: [getPredictionsOp] never raises.  On a built instance it returns
    None before any call; once a first call has gone through on an input
    of shape [n, d] it returns the predictions of that call, of length n
    and equal to argmax of its scores, and keeps returning them after any
    further calls on any inputs. *)
Theorem X11_predictions_accessor rnd d0 dc m0 L0 (g : R) W0 B0 Z0
    (s : ProtoNN) (n : nat) (X : T2) (Y : option T2) :
  init rnd d0 dc m0 L0 g W0 B0 Z0 = inr s ->
  (1 <= dc)%nat -> (1 <= L0)%nat -> shape2 X = (n, d0) ->
  getPredictionsOp s = (s, inr None) /\
  exists y p,
    ilen p = n /\ (forall i, iat p i = argmax_row (at2 y i) L0) /\
    forall cs,
      let s' := calls cs (fst (call X Y s)) in
      protoNNOut s' = Some y /\ getPredictionsOp s' = (s', inr (Some p)).
Proof.
  intros Hinit Hdc HL HX.
  destruct (built_computes _ _ _ _ _ _ _ _ _ _ n X Hinit Hdc HL HX)
    as (Hv & Hout & _ & l2 & y & p & El2 & Ey & Ep & _ & Hlen & Hval & _).
  destruct (call_computes_any X s l2 y p Hv Hout El2 Ey Ep Y)
    as (Ho & Hp & _).
  split.
  { apply init_inv in Hinit. destruct Hinit as (-> & HW & HB & HZ).
    pose proof (built_shapes rnd d0 dc m0 L0 g _ _ _ HW HB HZ) as Hb.
    cbv zeta in Hb. destruct Hb as (_ & _ & _ & _ & _ & _ & Hpred & _).
    unfold getPredictionsOp, bind, self, ret. now rewrite Hpred. }
  exists y, p. split; [assumption|]. split; [assumption|].
  intros cs. cbv zeta.
  rewrite (calls_cached cs (fst (call X Y s))) by congruence.
  split; [assumption|].
  unfold getPredictionsOp. unmonad. now rewrite Hp.
Qed.

Lemma X11_predictions_accessor_witness :
  getPredictionsOp Example1.s0 = (Example1.s0, inr None) /\
  exists y p,
    ilen p = 1%nat /\ (forall i, iat p i = argmax_row (at2 y i) 2) /\
    forall cs,
      let s' := calls cs (fst (call Example1.X0 None Example1.s0)) in
      protoNNOut s' = Some y /\ getPredictionsOp s' = (s', inr (Some p)).
Proof.
  apply (X11_predictions_accessor Example1.rnd 2 2 1 2 1
           (Some Example1.W0) (Some Example1.B0) (Some Example1.Z0)
           Example1.s0 1 Example1.X0 None);
    (lia || reflexivity).
Defined.

(** X12: the width of the labels is not checked against L.  With labels
    of shape [n, c] for any c >= 1 the first call goes through and caches
    the mean of predictions == argmax(Y, 1); a row whose label index is L
    or more can never match, so when every row is labelled that way the
    accuracy is 0. *)
Theorem X12_label_width_unchecked rnd d0 dc m0 L0 (g : R) W0 B0 Z0
    (s : ProtoNN) (n c : nat) (X Y : T2) :
  init rnd d0 dc m0 L0 g W0 B0 Z0 = inr s ->
  (1 <= dc)%nat -> (1 <= L0)%nat -> (1 <= n)%nat -> (1 <= c)%nat ->
  shape2 X = (n, d0) -> shape2 Y = (n, c) ->
  exists s' y p t acc,
    call X (Some Y) s = (s', inr y) /\
    predictions s' = Some p /\ argmax1 Y = inr t /\
    accuracy s' = Some acc /\
    acc = sum_upto n (fun i => cast (Nat.eqb (iat p i) (iat t i))) / INR n /\
    (forall i, (iat t i < c)%nat) /\
    ((forall i, (i < n)%nat -> (L0 <= iat t i)%nat) -> acc = 0).
Proof.
  intros Hinit Hdc HL Hn Hc HX HY.
  destruct (built_computes _ _ _ _ _ _ _ _ _ _ n X Hinit Hdc HL HX)
    as (Hv & Hout & _ & l2 & y & p & El2 & Ey & Ep & _ & Hlen & _ & Hlt).
  destruct (argmax1_shape Y n c HY Hc) as (t & Et & Htlen & _ & Htlt).
  destruct (equal1_same p t n Hlen Htlen) as (cp & Ecp & Hblen & Hbat).
  destruct (reduce_mean_spec cp n
              (fun i => Nat.eqb (iat p i) (iat t i)) Hblen Hn Hbat)
    as (Hmean & _ & _ & Hnone).
  exists (set_accuracy (Some (reduce_mean cp)) (computed l2 y p s)),
    y, p, t, (reduce_mean cp).
  split; [now apply call_computes_Some with (t := t)|].
  do 3 (split; [reflexivity || assumption|]).
  split; [assumption|]. split; [assumption|].
  intros H. apply Hnone. intros i Hi. apply Nat.eqb_neq.
  specialize (H i Hi). specialize (Hlt i). lia.
Qed.

Lemma X12_label_width_unchecked_witness :
  exists s' y p t acc,
    call Example1.X1 (Some Example2.Yc) Example1.s0 = (s', inr y) /\
    predictions s' = Some p /\ argmax1 Example2.Yc = inr t /\
    accuracy s' = Some acc /\
    acc = sum_upto 2 (fun i => cast (Nat.eqb (iat p i) (iat t i))) / INR 2 /\
    (forall i, (iat t i < 3)%nat) /\
    ((forall i, (i < 2)%nat -> (2 <= iat t i)%nat) -> acc = 0).
Proof.
  apply (X12_label_width_unchecked Example1.rnd 2 2 1 2 1
           (Some Example1.W0) (Some Example1.B0) (Some Example1.Z0)
           Example1.s0 2 3 Example1.X1 Example2.Yc);
    (lia || reflexivity).
Defined.

(** X13: labels of a single row are broadcast over the batch.  With an
    input of n >= 1 rows and labels of shape [1, c], the first call goes
    through and the cached accuracy is the share of the n predictions that
    equal the label index of that one row. *)
Theorem X13_single_label_row_broadcast rnd d0 dc m0 L0 (g : R) W0 B0 Z0
    (s : ProtoNN) (n c : nat) (X Y : T2) :
  init rnd d0 dc m0 L0 g W0 B0 Z0 = inr s ->
  (1 <= dc)%nat -> (1 <= L0)%nat -> (1 <= n)%nat -> (1 <= c)%nat ->
  shape2 X = (n, d0) -> shape2 Y = (1%nat, c) ->
  exists s' y p t acc,
    call X (Some Y) s = (s', inr y) /\
    predictions s' = Some p /\ argmax1 Y = inr t /\
    accuracy s' = Some acc /\
    acc = sum_upto n (fun i => cast (Nat.eqb (iat p i) (iat t 0))) / INR n /\
    0 <= acc <= 1.
Proof.
  intros Hinit Hdc HL Hn Hc HX HY.
  destruct (built_computes _ _ _ _ _ _ _ _ _ _ n X Hinit Hdc HL HX)
    as (Hv & Hout & _ & l2 & y & p & El2 & Ey & Ep & _ & Hlen & _).
  destruct (argmax1_shape Y 1 c HY Hc) as (t & Et & Htlen & _).
  assert (Ecp : equal1 p t =
                inr (mkB1 n (fun i => Nat.eqb (iat p (bidx n i))
                                        (iat t (bidx 1 i)))))
    by (unfold equal1; now rewrite Hlen, Htlen, bdim_1_r).
  set (cp := mkB1 n (fun i => Nat.eqb (iat p (bidx n i))
                                (iat t (bidx 1 i)))) in *.
  destruct (reduce_mean_spec cp n
              (fun i => Nat.eqb (iat p i) (iat t 0)) eq_refl Hn)
    as (Hmean & Hrange & _).
  { intros i Hi. simpl. now rewrite bidx_lt. }
  exists (set_accuracy (Some (reduce_mean cp)) (computed l2 y p s)),
    y, p, t, (reduce_mean cp).
  split; [now apply call_computes_Some with (t := t)|].
  do 3 (split; [reflexivity || assumption|]).
  split; assumption.
Qed.

Lemma X13_single_label_row_broadcast_witness :
  exists s' y p t acc,
    call Example1.X1 (Some Example2.Yr) Example1.s0 = (s', inr y) /\
    predictions s' = Some p /\ argmax1 Example2.Yr = inr t /\
    accuracy s' = Some acc /\
    acc = sum_upto 2 (fun i => cast (Nat.eqb (iat p i) (iat t 0))) / INR 2 /\
    0 <= acc <= 1.
Proof.
  apply (X13_single_label_row_broadcast Example1.rnd 2 2 1 2 1
           (Some Example1.W0) (Some Example1.B0) (Some Example1.Z0)
           Example1.s0 2 2 Example1.X1 Example2.Yr);
    (lia || reflexivity).
Defined.
